(** * The unified context-item store (zustand store [useContextItems])

    A shallow embedding of the context-item store of the Obsidian plugin and of
    its factory helpers, followed by the properties of the store.

    Modelling conventions.
    - A JavaScript object used as a record of items ([Record<string, T>]) is
      the list of its own properties in the order [Object.values] and object
      spread enumerate them: array-index keys in ascending numeric order, then
      the other string keys in order of creation.
    - [createdAt] is a millisecond count as [Date.now()] produces it, an
      integer: it is a [Z].
    - Every call of [Date.now()] is an input of the helper that makes it.
    - zustand's [set (partial)] merges the partial state into the state: it is
      a record update; [get ()] is the state itself. *)

From Stdlib Require Import ZArith NArith List String Ascii Bool Lia.
From Stdlib Require Import Permutation Sorting.Sorted DecimalString DecimalZ.
From Stdlib Require QArith Qcanon.
Import ListNotations.

Local Open Scope string_scope.
Local Open Scope list_scope.

(* ================================================================== *)
(** ** JavaScript objects as ordered property lists *)

Module JSObject.

(** [t V]: the own enumerable string-keyed properties of an object, in
    [OrdinaryOwnPropertyKeys] order. *)
Definition t (V : Type) : Type := list (string * V).

Definition is_digit (c : ascii) : bool :=
  ((48 <=? N_of_ascii c) && (N_of_ascii c <=? 57))%N.

(** Value of a string of decimal digits, most significant first. *)
Fixpoint digits_value (s : string) (acc : N) : option N :=
  match s with
  | EmptyString => Some acc
  | String c s' =>
      if is_digit c
      then digits_value s' (10 * acc + (N_of_ascii c - 48))%N
      else None
  end.

(** A property key is an array index when it is the canonical decimal
    writing of an integer in 0 .. 2^32 - 2. *)
Definition array_index (k : string) : option N :=
  match k with
  | EmptyString => None
  | String c rest =>
      if (Ascii.eqb c "0" && negb (String.eqb rest ""))%bool then None
      else match digits_value k 0 with
           | Some n => if (n <? 4294967295)%N then Some n else None
           | None => None
           end
  end.

(** Number of characters of a key, as an [N]. *)
Definition len (s : string) : N := N.of_nat (String.length s).

Section Ops.
Context {V : Type}.

Definition empty : t V := [].

Definition keys (o : t V) : list string := map fst o.

(** [Object.values (o)] *)
Definition values (o : t V) : list V := map snd o.

(** [o[k]], [None] standing for [undefined] *)
Fixpoint get (k : string) (o : t V) : option V :=
  match o with
  | [] => None
  | (k', v') :: o' => if String.eqb k' k then Some v' else get k o'
  end.

Definition has (k : string) (o : t V) : bool :=
  match get k o with Some _ => true | None => false end.

(** Assignment to an existing property keeps its place. *)
Fixpoint replace (k : string) (v : V) (o : t V) : t V :=
  match o with
  | [] => []
  | (k', v') :: o' =>
      if String.eqb k' k then (k', v) :: o'
      else (k', v') :: replace k v o'
  end.

(** A new array-index property goes before the first property that is
    not an array index or has a larger index. *)
Fixpoint insert_index (n : N) (k : string) (v : V) (o : t V) : t V :=
  match o with
  | [] => [(k, v)]
  | (k', v') :: o' =>
      match array_index k' with
      | Some m =>
          if (m <? n)%N then (k', v') :: insert_index n k v o'
          else (k, v) :: o
      | None => (k, v) :: o
      end
  end.

(** [o[k] = v] *)
Definition set (k : string) (v : V) (o : t V) : t V :=
  if has k o then replace k v o
  else match array_index k with
       | Some n => insert_index n k v o
       | None => o ++ [(k, v)]
       end.

(** [delete o[k]] *)
Fixpoint delete (k : string) (o : t V) : t V :=
  match o with
  | [] => []
  | (k', v') :: o' =>
      if String.eqb k' k then delete k o' else (k', v') :: delete k o'
  end.

(** [{ ...o }]: a fresh object on which the properties of [o] are
    created one after the other. *)
Definition spread (o : t V) : t V :=
  fold_left (fun acc kv => set (fst kv) (snd kv) acc) o empty.

End Ops.

(** Order of two keys in the enumeration of own properties. *)
Definition key_before (k1 k2 : string) : Prop :=
  match array_index k1, array_index k2 with
  | Some a, Some b => (a < b)%N
  | Some _, None => True
  | None, Some _ => False
  | None, None => True
  end.

(** The lists that are the property list of some object: no key twice, and
    the keys in enumeration order. *)
Definition wf {V : Type} (o : t V) : Prop :=
  NoDup (keys o) /\ StronglySorted key_before (keys o).

End JSObject.

(* ================================================================== *)
(** ** Arrays and strings of the host language *)

Section ArraySort.
Context {A : Type}.
Variable cmp : A -> A -> Z.

(** [x] is put in front of the first element it must precede; it passes
    only the elements [y] with [cmp x y > 0]. *)
Fixpoint sort_insert (x : A) (l : list A) : list A :=
  match l with
  | [] => [x]
  | y :: l' =>
      if (cmp x y <=? 0)%Z then x :: y :: l' else y :: sort_insert x l'
  end.

(** [l.sort (cmp)]. The sort of the language is stable; with a comparator
    that orders the elements by a key, the result of a stable sort does not
    depend on the algorithm (see [Array_sort_unique]), and the stable
    insertion sort stands for it. *)
Fixpoint Array_sort (l : list A) : list A :=
  match l with
  | [] => []
  | x :: l' => sort_insert x (Array_sort l')
  end.
End ArraySort.

Section KeyOrder.
Context {A : Type}.
Variable key : A -> Z.

(** The comparator [(a, b) => key (b) - key (a)]. *)
Definition cmp_desc (a b : A) : Z := (key b - key a)%Z.

(** The elements of [l] whose key is [t], in the order of [l]. *)
Definition key_filter (t : Z) (l : list A) : list A :=
  filter (fun x => (key x =? t)%Z) l.

(** Descending order of the keys. *)
Definition key_desc (l : list A) : Prop :=
  StronglySorted (fun a b => (key b <= key a)%Z) l.
End KeyOrder.

(** [l.pop ()], the removed last element; [None] is [undefined]. *)
Fixpoint Array_pop {A : Type} (l : list A) : option A :=
  match l with
  | [] => None
  | [x] => Some x
  | _ :: l' => Array_pop l'
  end.

(** [s.split (sep)] for a one-character separator; [cur] is the segment
    being read. *)
Fixpoint split_from (sep : ascii) (cur : string) (s : string) : list string :=
  match s with
  | EmptyString => [cur]
  | String c s' =>
      if Ascii.eqb c sep then cur :: split_from sep "" s'
      else split_from sep (cur ++ String c "") s'
  end.

Definition String_split (sep : ascii) (s : string) : list string :=
  split_from sep "" s.

(** The decimal writing of an integer, as a template literal prints a
    number that is an integer. *)
Definition Number_toString (n : Z) : string :=
  NilEmpty.string_of_int (Z.to_int n).

Definition double_quote : string := String (ascii_of_nat 34) "".

(* ================================================================== *)
(** ** Context items *)

(** [ContextItemType] *)
Module Ty.
Inductive t : Type := file | folder | youtube | tag | screenpipe | search.

Definition eqb (a b : t) : bool :=
  match a, b with
  | file, file | folder, folder | youtube, youtube
  | tag, tag | screenpipe, screenpipe | search, search => true
  | _, _ => false
  end.
End Ty.

Definition ContextItemType : Type := Ty.t.

(** A value of type [any]; a structured value is kept as its JSON text. *)
Inductive JSValue : Type :=
  | JSUndefined
  | JSNull
  | JSBool (b : bool)
  | JSNumber (n : Z)
  | JSString (s : string)
  | JSStructured (json : string).

Module File.
Record t : Type := mk
  { id : string; reference : string; createdAt : Z;
    path : string; title : string; content : string }.
End File.

Module Folder.
Record t : Type := mk
  { id : string; reference : string; createdAt : Z;
    path : string; name : string }.
End Folder.

Module YouTube.
Record t : Type := mk
  { id : string; reference : string; createdAt : Z;
    videoId : string; title : string; transcript : string }.
End YouTube.

Module Tag.
Record t : Type := mk
  { id : string; reference : string; createdAt : Z; name : string }.
End Tag.

Module Screenpipe.
Record t : Type := mk
  { id : string; reference : string; createdAt : Z; data : JSValue }.
End Screenpipe.

Module SearchHit.
Record t : Type := mk
  { path : string; title : string; content : string }.
End SearchHit.

Module Search.
Record t : Type := mk
  { id : string; reference : string; createdAt : Z;
    query : string; results : list SearchHit.t }.
End Search.

(** An element of a [BaseContextItem[]]: an item of one of the six variants;
    the constructor is its [type] field. *)
Inductive ContextItem : Type :=
  | IFile (x : File.t)
  | IFolder (x : Folder.t)
  | IYouTube (x : YouTube.t)
  | ITag (x : Tag.t)
  | IScreenpipe (x : Screenpipe.t)
  | ISearch (x : Search.t).

Definition item_type (i : ContextItem) : ContextItemType :=
  match i with
  | IFile _ => Ty.file | IFolder _ => Ty.folder | IYouTube _ => Ty.youtube
  | ITag _ => Ty.tag | IScreenpipe _ => Ty.screenpipe | ISearch _ => Ty.search
  end.

Definition item_id (i : ContextItem) : string :=
  match i with
  | IFile x => File.id x | IFolder x => Folder.id x
  | IYouTube x => YouTube.id x | ITag x => Tag.id x
  | IScreenpipe x => Screenpipe.id x | ISearch x => Search.id x
  end.

Definition item_reference (i : ContextItem) : string :=
  match i with
  | IFile x => File.reference x | IFolder x => Folder.reference x
  | IYouTube x => YouTube.reference x | ITag x => Tag.reference x
  | IScreenpipe x => Screenpipe.reference x | ISearch x => Search.reference x
  end.

Definition item_createdAt (i : ContextItem) : Z :=
  match i with
  | IFile x => File.createdAt x | IFolder x => Folder.createdAt x
  | IYouTube x => YouTube.createdAt x | ITag x => Tag.createdAt x
  | IScreenpipe x => Screenpipe.createdAt x | ISearch x => Search.createdAt x
  end.

(* ================================================================== *)
(** ** The store *)

(** [ContextItemsState], its data part. *)
Record ContextItemsState : Type := mkState
  { files : JSObject.t File.t;
    folders : JSObject.t Folder.t;
    youtubeVideos : JSObject.t YouTube.t;
    tags : JSObject.t Tag.t;
    screenpipe : JSObject.t Screenpipe.t;
    searchResults : JSObject.t Search.t;
    currentFile : option File.t;
    includeCurrentFile : bool }.

(** The initial state of [useContextItems]. *)
Definition initial : ContextItemsState :=
  {| files := JSObject.empty; folders := JSObject.empty;
     youtubeVideos := JSObject.empty; tags := JSObject.empty;
     screenpipe := JSObject.empty; searchResults := JSObject.empty;
     currentFile := None; includeCurrentFile := true |}.

(** [keyof ContextCollections] *)
Module Key.
Inductive t : Type :=
  files | folders | youtubeVideos | tags | screenpipe | searchResults.
End Key.

(** The table [collectionMap] of [removeItem] and [getItemsByType]. *)
Definition collectionMap : list (ContextItemType * Key.t) :=
  [ (Ty.file, Key.files);
    (Ty.folder, Key.folders);
    (Ty.youtube, Key.youtubeVideos);
    (Ty.tag, Key.tags);
    (Ty.screenpipe, Key.screenpipe);
    (Ty.search, Key.searchResults) ].

(** [table[type]], [None] standing for [undefined] *)
Fixpoint table_get (type : ContextItemType)
    (table : list (ContextItemType * Key.t)) : option Key.t :=
  match table with
  | [] => None
  | (t', k) :: table' =>
      if Ty.eqb t' type then Some k else table_get type table'
  end.

(** [set ({ files: o })] and its five siblings *)
Definition set_files (o : JSObject.t File.t) (s : ContextItemsState) :=
  mkState o (folders s) (youtubeVideos s) (tags s) (screenpipe s)
    (searchResults s) (currentFile s) (includeCurrentFile s).

Definition set_folders (o : JSObject.t Folder.t) (s : ContextItemsState) :=
  mkState (files s) o (youtubeVideos s) (tags s) (screenpipe s)
    (searchResults s) (currentFile s) (includeCurrentFile s).

Definition set_youtubeVideos (o : JSObject.t YouTube.t)
    (s : ContextItemsState) :=
  mkState (files s) (folders s) o (tags s) (screenpipe s)
    (searchResults s) (currentFile s) (includeCurrentFile s).

Definition set_tags (o : JSObject.t Tag.t) (s : ContextItemsState) :=
  mkState (files s) (folders s) (youtubeVideos s) o (screenpipe s)
    (searchResults s) (currentFile s) (includeCurrentFile s).

Definition set_screenpipe (o : JSObject.t Screenpipe.t)
    (s : ContextItemsState) :=
  mkState (files s) (folders s) (youtubeVideos s) (tags s) o
    (searchResults s) (currentFile s) (includeCurrentFile s).

Definition set_searchResults (o : JSObject.t Search.t)
    (s : ContextItemsState) :=
  mkState (files s) (folders s) (youtubeVideos s) (tags s) (screenpipe s)
    o (currentFile s) (includeCurrentFile s).

(** [set ({ [key]: f (state[key]) })], the collection chosen at run time *)
Definition update_collection (key : Key.t)
    (f : forall V : Type, JSObject.t V -> JSObject.t V)
    (s : ContextItemsState) : ContextItemsState :=
  match key with
  | Key.files => set_files (f _ (files s)) s
  | Key.folders => set_folders (f _ (folders s)) s
  | Key.youtubeVideos => set_youtubeVideos (f _ (youtubeVideos s)) s
  | Key.tags => set_tags (f _ (tags s)) s
  | Key.screenpipe => set_screenpipe (f _ (screenpipe s)) s
  | Key.searchResults => set_searchResults (f _ (searchResults s)) s
  end.

(** [Object.values (state[key])], as an array of base items *)
Definition collection_values (key : Key.t) (s : ContextItemsState)
    : list ContextItem :=
  match key with
  | Key.files => map IFile (JSObject.values (files s))
  | Key.folders => map IFolder (JSObject.values (folders s))
  | Key.youtubeVideos => map IYouTube (JSObject.values (youtubeVideos s))
  | Key.tags => map ITag (JSObject.values (tags s))
  | Key.screenpipe => map IScreenpipe (JSObject.values (screenpipe s))
  | Key.searchResults => map ISearch (JSObject.values (searchResults s))
  end.

(** *** Add actions *)

Definition addFile (file : File.t) (state : ContextItemsState) :=
  set_files (JSObject.set (File.id file) file (JSObject.spread (files state)))
    state.

Definition addFolder (folder : Folder.t) (state : ContextItemsState) :=
  set_folders
    (JSObject.set (Folder.id folder) folder (JSObject.spread (folders state)))
    state.

Definition addYouTubeVideo (video : YouTube.t) (state : ContextItemsState) :=
  set_youtubeVideos
    (JSObject.set (YouTube.id video) video
       (JSObject.spread (youtubeVideos state)))
    state.

Definition addTag (tag : Tag.t) (state : ContextItemsState) :=
  set_tags (JSObject.set (Tag.id tag) tag (JSObject.spread (tags state))) state.

Definition addScreenpipe (data : Screenpipe.t) (state : ContextItemsState) :=
  set_screenpipe
    (JSObject.set (Screenpipe.id data) data
       (JSObject.spread (screenpipe state)))
    state.

Definition addSearchResults (search : Search.t) (state : ContextItemsState) :=
  set_searchResults
    (JSObject.set (Search.id search) search
       (JSObject.spread (searchResults state)))
    state.

(** *** Remove action

    With a [type] outside the table (the type [ContextItemType] has none)
    the source writes an empty object under the key ["undefined"], which is
    none of the fields of the state. *)
Definition removeItem (type : ContextItemType) (id : string)
    (state : ContextItemsState) : ContextItemsState :=
  match table_get type collectionMap with
  | Some collectionKey =>
      update_collection collectionKey
        (fun V o => JSObject.delete id (JSObject.spread o)) state
  | None => state
  end.

Definition setCurrentFile (file : option File.t) (state : ContextItemsState) :=
  mkState (files state) (folders state) (youtubeVideos state) (tags state)
    (screenpipe state) (searchResults state) file (includeCurrentFile state).

Definition toggleCurrentFile (state : ContextItemsState) :=
  mkState (files state) (folders state) (youtubeVideos state) (tags state)
    (screenpipe state) (searchResults state) (currentFile state)
    (negb (includeCurrentFile state)).

Definition clearAll (state : ContextItemsState) : ContextItemsState :=
  {| files := JSObject.empty; folders := JSObject.empty;
     youtubeVideos := JSObject.empty; tags := JSObject.empty;
     screenpipe := JSObject.empty; searchResults := JSObject.empty;
     includeCurrentFile := false; currentFile := None |}.

(** *** Getters *)

(** The comparator [(a, b) => b.createdAt - a.createdAt]. *)
Definition by_createdAt_desc (a b : ContextItem) : Z :=
  (item_createdAt b - item_createdAt a)%Z.

(** The array literal of [getUnifiedContext], before it is sorted. *)
Definition collected (state : ContextItemsState) : list ContextItem :=
  map IFile (JSObject.values (files state))
  ++ map IFolder (JSObject.values (folders state))
  ++ map IYouTube (JSObject.values (youtubeVideos state))
  ++ map ITag (JSObject.values (tags state))
  ++ map IScreenpipe (JSObject.values (screenpipe state))
  ++ map ISearch (JSObject.values (searchResults state)).

Definition getUnifiedContext (state : ContextItemsState) : list ContextItem :=
  let allItems := Array_sort by_createdAt_desc (collected state) in
  match includeCurrentFile state, currentFile state with
  | true, Some current => IFile current :: allItems
  | _, _ => allItems
  end.

(** The outcome of an evaluation that may throw. *)
Inductive completion (A : Type) : Type :=
  | Normal (a : A)
  | Throw (error : string).
Arguments Normal {A} a.
Arguments Throw {A} error.

(** [Object.values (undefined)] throws a [TypeError]. *)
Definition getItemsByType (type : ContextItemType) (state : ContextItemsState)
    : completion (list ContextItem) :=
  match table_get type collectionMap with
  | Some key => Normal (collection_values key state)
  | None => Throw "TypeError"
  end.

(* ================================================================== *)
(** ** Factory helpers

    [useContextItems.getState ().addX (item)] is the add action applied to
    the store; [now] is the value of the call of [Date.now ()]. *)

Module FileArg.
Record t : Type := mk { path : string; title : string; content : string }.
End FileArg.

Module VideoArg.
Record t : Type := mk
  { videoId : string; title : string; transcript : string }.
End VideoArg.

(** [x || d] for [x] a string or [undefined]: the empty string is falsy. *)
Definition or_else (x : option string) (d : string) : string :=
  match x with
  | Some EmptyString => d
  | Some v => v
  | None => d
  end.

Definition addFileContext (file : FileArg.t) (now : Z)
    (state : ContextItemsState) : ContextItemsState :=
  addFile
    {| File.id := FileArg.path file;
       File.path := FileArg.path file;
       File.title := FileArg.title file;
       File.content := FileArg.content file;
       File.reference := "File";
       File.createdAt := now |} state.

Definition addYouTubeContext (video : VideoArg.t) (now : Z)
    (state : ContextItemsState) : ContextItemsState :=
  addYouTubeVideo
    {| YouTube.id := "youtube-" ++ VideoArg.videoId video;
       YouTube.videoId := VideoArg.videoId video;
       YouTube.title := VideoArg.title video;
       YouTube.transcript := VideoArg.transcript video;
       YouTube.reference := "YouTube Video";
       YouTube.createdAt := now |} state.

(** The second argument of the source, [plugin], is not used. *)
Definition addFolderContext (folderPath : string) (now : Z)
    (state : ContextItemsState) : ContextItemsState :=
  addFolder
    {| Folder.id := folderPath;
       Folder.path := folderPath;
       Folder.name :=
         or_else (Array_pop (String_split "/" folderPath)) folderPath;
       Folder.reference := "Folder";
       Folder.createdAt := now |} state.

Definition addTagContext (tagName : string) (now : Z)
    (state : ContextItemsState) : ContextItemsState :=
  addTag
    {| Tag.id := "tag-" ++ tagName;
       Tag.name := tagName;
       Tag.reference := "Tag";
       Tag.createdAt := now |} state.

Definition addScreenpipeContext (data : JSValue) (now : Z)
    (state : ContextItemsState) : ContextItemsState :=
  addScreenpipe
    {| Screenpipe.id := "screenpipe-context";
       Screenpipe.data := data;
       Screenpipe.reference := "Screenpipe Context";
       Screenpipe.createdAt := now |} state.

(** The object literal calls [Date.now ()] twice: [now_id] for the id, then
    [now] for [createdAt]. *)
Definition addSearchContext (query : string) (results : list SearchHit.t)
    (now_id now : Z) (state : ContextItemsState) : ContextItemsState :=
  addSearchResults
    {| Search.id := "search-" ++ Number_toString now_id;
       Search.query := query;
       Search.results := results;
       Search.reference := "Search: " ++ double_quote ++ query ++ double_quote;
       Search.createdAt := now |} state.

(** The item a call of [addSearchContext] makes. *)
Definition search_item (query : string) (results : list SearchHit.t)
    (now_id now : Z) : Search.t :=
  Search.mk ("search-" ++ Number_toString now_id)
    ("Search: " ++ double_quote ++ query ++ double_quote) now query results.

(** A run of calls of [addScreenpipeContext], each with its payload and
    clock reading. *)
Definition screenpipe_calls (calls : list (JSValue * Z))
    (state : ContextItemsState) : ContextItemsState :=
  fold_left (fun s c => addScreenpipeContext (fst c) (snd c) s) calls state.

(* ================================================================== *)
(** ** The interface of the store as a set of calls *)

Inductive Action : Type :=
  | AddFile (file : File.t)
  | AddFolder (folder : Folder.t)
  | AddYouTubeVideo (video : YouTube.t)
  | AddTag (tag : Tag.t)
  | AddScreenpipe (data : Screenpipe.t)
  | AddSearchResults (search : Search.t)
  | RemoveItem (type : ContextItemType) (id : string)
  | SetCurrentFile (file : option File.t)
  | ToggleCurrentFile
  | ClearAll
  | GetUnifiedContext
  | GetItemsByType (type : ContextItemType).

(** A call returns the state it leaves and, for a getter, the array it
    returns, or throws. *)
Definition call (a : Action) (state : ContextItemsState)
    : completion (ContextItemsState * option (list ContextItem)) :=
  match a with
  | AddFile x => Normal (addFile x state, None)
  | AddFolder x => Normal (addFolder x state, None)
  | AddYouTubeVideo x => Normal (addYouTubeVideo x state, None)
  | AddTag x => Normal (addTag x state, None)
  | AddScreenpipe x => Normal (addScreenpipe x state, None)
  | AddSearchResults x => Normal (addSearchResults x state, None)
  | RemoveItem type id => Normal (removeItem type id state, None)
  | SetCurrentFile x => Normal (setCurrentFile x state, None)
  | ToggleCurrentFile => Normal (toggleCurrentFile state, None)
  | ClearAll => Normal (clearAll state, None)
  | GetUnifiedContext => Normal (state, Some (getUnifiedContext state))
  | GetItemsByType type =>
      match getItemsByType type state with
      | Normal items => Normal (state, Some items)
      | Throw e => Throw e
      end
  end.

(** The state after a sequence of calls, [None] when one of them throws. *)
Fixpoint calls (l : list Action) (state : ContextItemsState)
    : option ContextItemsState :=
  match l with
  | [] => Some state
  | a :: l' =>
      match call a state with
      | Normal (state', _) => calls l' state'
      | Throw _ => None
      end
  end.

(** A step of a history of the store: a capture made through
    [addScreenpipeContext], or a call of the store itself. *)
Inductive Step : Type :=
  | Capture (data : JSValue) (now : Z)
  | Direct (a : Action).

Definition step (st : Step) (state : ContextItemsState)
    : option ContextItemsState :=
  match st with
  | Capture data now => Some (addScreenpipeContext data now state)
  | Direct a =>
      match call a state with
      | Normal (state', _) => Some state'
      | Throw _ => None
      end
  end.

Fixpoint steps (l : list Step) (state : ContextItemsState)
    : option ContextItemsState :=
  match l with
  | [] => Some state
  | st :: l' =>
      match step st state with
      | Some state' => steps l' state'
      | None => None
      end
  end.

(** The step is a call of [addScreenpipe] that does not go through the
    helper. *)
Definition direct_capture (st : Step) : bool :=
  match st with
  | Direct (AddScreenpipe _) => true
  | _ => false
  end.

(* ================================================================== *)
(** ** Predicates of the statements *)

(** Every property of the collection is filed under the id of its item. *)
Definition keyed {V : Type} (id : V -> string) (o : JSObject.t V) : Prop :=
  Forall (fun kv => id (snd kv) = fst kv) o.

(** A collection of a store: the property list of an object (so no id
    twice), each item under its own id. *)
Definition collection_ok {V : Type} (id : V -> string) (o : JSObject.t V)
    : Prop :=
  JSObject.wf o /\ keyed id o.

Definition store_ok (s : ContextItemsState) : Prop :=
  collection_ok File.id (files s)
  /\ collection_ok Folder.id (folders s)
  /\ collection_ok YouTube.id (youtubeVideos s)
  /\ collection_ok Tag.id (tags s)
  /\ collection_ok Screenpipe.id (screenpipe s)
  /\ collection_ok Search.id (searchResults s).

(** A collection seen as an object of base items. *)
Definition inject {V : Type} (f : V -> ContextItem) (o : JSObject.t V)
    : JSObject.t ContextItem :=
  map (fun kv => (fst kv, f (snd kv))) o.

(** [state[key]] *)
Definition collection (key : Key.t) (s : ContextItemsState)
    : JSObject.t ContextItem :=
  match key with
  | Key.files => inject IFile (files s)
  | Key.folders => inject IFolder (folders s)
  | Key.youtubeVideos => inject IYouTube (youtubeVideos s)
  | Key.tags => inject ITag (tags s)
  | Key.screenpipe => inject IScreenpipe (screenpipe s)
  | Key.searchResults => inject ISearch (searchResults s)
  end.

(** The item an add action is called with. *)
Definition added (a : Action) : option ContextItem :=
  match a with
  | AddFile x => Some (IFile x)
  | AddFolder x => Some (IFolder x)
  | AddYouTubeVideo x => Some (IYouTube x)
  | AddTag x => Some (ITag x)
  | AddScreenpipe x => Some (IScreenpipe x)
  | AddSearchResults x => Some (ISearch x)
  | _ => None
  end.

(** What [getUnifiedContext] puts in front of the sorted items. *)
Definition prepended (s : ContextItemsState) : list ContextItem :=
  match includeCurrentFile s, currentFile s with
  | true, Some current => [IFile current]
  | _, _ => []
  end.

(** The ids of the items of a category are pairwise different. *)
Definition ids_unique (key : Key.t) (s : ContextItemsState) : Prop :=
  NoDup (map item_id (collection_values key s)).

(** [x] occurs in [l] at a smaller index than [y]. *)
Definition appears_before {A : Type} (x y : A) (l : list A) : Prop :=
  exists l1 l2 l3, l = l1 ++ x :: l2 ++ y :: l3.

(** Number of the items of [l] with the given id. *)
Definition count_id (id : string) (l : list ContextItem) : nat :=
  List.length (filter (fun i => String.eqb (item_id i) id) l).

(** Number of the items of [l] of the given variant with the given id. *)
Definition count_typed_id (type : ContextItemType) (id : string)
    (l : list ContextItem) : nat :=
  List.length
    (filter
       (fun i => Ty.eqb (item_type i) type && String.eqb (item_id i) id) l).

(** The items of [l] stamped [t], in the order of [l]. *)
Definition stamped (t : Z) (l : list ContextItem) : list ContextItem :=
  filter (fun i => (item_createdAt i =? t)%Z) l.

(** Descending order of the time stamps. *)
Definition newer_first (l : list ContextItem) : Prop :=
  StronglySorted (fun a b => (item_createdAt b <= item_createdAt a)%Z) l.

(* ================================================================== *)
(** ** Sample items and stores *)

Definition ex_file_a : File.t :=
  File.mk "a.md" "File" 100 "a.md" "a" "alpha".

Definition ex_file_b : File.t :=
  File.mk "b.md" "File" 150 "b.md" "b" "beta".

Definition ex_file_c : File.t :=
  File.mk "c.md" "File" 50 "c.md" "c" "gamma".

Definition ex_tag_x : Tag.t := Tag.mk "tag-x" "Tag" 200 "x".

(** A later version of [a.md]. *)
Definition ex_file_a2 : File.t :=
  File.mk "a.md" "File" 300 "a.md" "a" "alpha, edited".

(** The scenario: file [a.md], tag [x], file [b.md], in this order. *)
Definition ex_store : ContextItemsState :=
  addFile ex_file_b (addTag ex_tag_x (addFile ex_file_a initial)).

(** The scenario with [c.md] as the current file. *)
Definition ex_store_current : ContextItemsState :=
  setCurrentFile (Some ex_file_c) ex_store.

(** The scenario with [a.md], which is in the files, as the current file. *)
Definition ex_store_same : ContextItemsState :=
  setCurrentFile (Some ex_file_a) ex_store.

(* ================================================================== *)
(** ** Further predicates on calls, items and strings *)

(** The collection a call writes, if it writes one. *)
Definition touches (a : Action) : option Key.t :=
  match a with
  | AddFile _ => Some Key.files
  | AddFolder _ => Some Key.folders
  | AddYouTubeVideo _ => Some Key.youtubeVideos
  | AddTag _ => Some Key.tags
  | AddScreenpipe _ => Some Key.screenpipe
  | AddSearchResults _ => Some Key.searchResults
  | RemoveItem type _ => table_get type collectionMap
  | _ => None
  end.

Definition is_toggle (a : Action) : bool :=
  match a with
  | ToggleCurrentFile => true
  | _ => false
  end.

(** The item is of the given variant and id. *)
Definition is_item (type : ContextItemType) (id : string) (i : ContextItem)
    : bool :=
  Ty.eqb (item_type i) type && String.eqb (item_id i) id.

(** The character occurs in the string. *)
Fixpoint has_char (c : ascii) (s : string) : bool :=
  match s with
  | EmptyString => false
  | String c' s' => Ascii.eqb c' c || has_char c s'
  end.

(** The [name] that [addFolderContext] gives the folder of a path. *)
Definition folder_name (folderPath : string) : string :=
  or_else (Array_pop (String_split "/" folderPath)) folderPath.

(* ================================================================== *)
(** ** The tag route: the tags it returns and its error responses

    The [POST] handler of the tag route awaits the authorization, the model
    and the usage log; the two parts below are its computations on data it
    already holds: the tags of the generated object, and the response to an
    error it caught. *)

Module SuggestedTag.
(** An element of [suggestedTags]. The schema admits the scores from 0 to
    100, finite numbers; a score is the rational it is equal to, and the
    comparator is read through its sign. *)
Record t : Type := mk
  { score : Qcanon.Qc; isNew : bool; tag : string; reason : string }.
End SuggestedTag.

(** The sign of [b.score - a.score], the comparator [(a, b) => b.score -
    a.score] as the sort reads it. *)
Definition by_score_desc (a b : SuggestedTag.t) : Z :=
  match Qcanon.Qccompare (SuggestedTag.score b) (SuggestedTag.score a) with
  | Lt => (-1)%Z
  | Eq => 0%Z
  | Gt => 1%Z
  end.

(** [tag.tag.startsWith ('#') ? tag.tag : `#${tag.tag}`] *)
Definition hash_tag (name : string) : string :=
  if String.prefix "#" name then name else "#" ++ name.

(** [{ ...tag, tag: ... }] *)
Definition with_hash (t : SuggestedTag.t) : SuggestedTag.t :=
  {| SuggestedTag.score := SuggestedTag.score t;
     SuggestedTag.isNew := SuggestedTag.isNew t;
     SuggestedTag.tag := hash_tag (SuggestedTag.tag t);
     SuggestedTag.reason := SuggestedTag.reason t |}.

(** The constant [sortedTags] of the handler. *)
Definition sortedTags (suggestedTags : list SuggestedTag.t)
    : list SuggestedTag.t :=
  map with_hash (Array_sort by_score_desc suggestedTags).

(** A caught object, with the two properties the handlers read: [message], a
    string when there is one, and [status], an integer when there is one. *)
Record JSError : Type := mkError
  { message : option string; status : option Z }.

(** [new Error (text)] *)
Definition Error (text : string) : JSError :=
  {| message := Some text; status := None |}.

(** What [NextResponse.json ({ error }, { status })] is made from. *)
Record ErrorResponse : Type := mkErrorResponse
  { response_error : string; response_status : Z }.

(** [hay.includes (needle)] *)
Fixpoint String_includes (needle hay : string) : bool :=
  String.prefix needle hay
  || match hay with
     | EmptyString => false
     | String _ hay' => String_includes needle hay'
     end.

(** [error.message?.includes (needle)], read as a condition. *)
Definition message_includes (needle : string) (error : JSError) : bool :=
  match message error with
  | Some text => String_includes needle text
  | None => false
  end.

(** The statuses of responses that cannot have a body. *)
Definition null_body_status (code : Z) : bool :=
  (code =? 101)%Z || (code =? 103)%Z || (code =? 204)%Z || (code =? 205)%Z
  || (code =? 304)%Z.

(** [NextResponse.json ({ error }, { status })]. The status is taken as an
    unsigned 16-bit integer; a response is made only with a status from 200
    to 599 ([RangeError] otherwise) and, since it has a body, not with a
    status that admits none ([TypeError]). *)
Definition NextResponse_json (error : string) (status : Z)
    : completion ErrorResponse :=
  let code := (status mod 65536)%Z in
  if ((code <? 200) || (599 <? code))%Z then Throw "RangeError"
  else if null_body_status code then Throw "TypeError"
  else Normal {| response_error := error; response_status := code |}.

(** The [catch] block of the handler. The empty string and the number 0 are
    falsy operands of [||]. What [NextResponse.json] throws is thrown by the
    handler. *)
Definition POST_catch (error : JSError) : completion ErrorResponse :=
  let errorMessage :=
    match message error with
    | Some EmptyString | None => "Failed to generate tags"
    | Some text => text
    end in
  let statusCode :=
    match status error with
    | Some 0%Z | None => 500%Z
    | Some code => code
    end in
  if message_includes "ollama" error then
    NextResponse_json
      "Failed to connect to Ollama. Please ensure Ollama is running and accessible."
      statusCode
  else if message_includes "OpenAI" error then
    NextResponse_json
      "OpenAI API error. Please check your API key and configuration."
      statusCode
  else
    NextResponse_json errorMessage statusCode.

(** The status the [catch] block answers an error with, before the response
    is made. *)
Definition statusCode_of (error : JSError) : Z :=
  match status error with
  | Some 0%Z | None => 500%Z
  | Some code => code
  end.

(** Sample suggestions. *)
Definition ex_score (n d : positive) : Qcanon.Qc :=
  Qcanon.Q2Qc (QArith_base.Qmake (Zpos n) d).

Definition ex_suggested : list SuggestedTag.t :=
  [ SuggestedTag.mk (ex_score 60 1) true "draft" "unfinished";
    SuggestedTag.mk (ex_score 171 2) false "#project" "names a project";
    SuggestedTag.mk (ex_score 60 1) false "meeting" "minutes";
    SuggestedTag.mk (ex_score 95 1) false "##todo" "has tasks" ].

(* ================================================================== *)
(** ** The top-up button ([TopUpCredits])

    [handleTopUp] is modelled by the calls it makes, in order, on the three
    things it acts on: the [loading] state, the location of the window and
    the callback [onLicenseKeyChange]; the console is the fourth. *)

#[warnings="-register-all"] Inductive Json : Type :=
  | JsonNull
  | JsonBool (b : bool)
  | JsonNumber (n : Qcanon.Qc)
  | JsonString (s : string)
  | JsonArray (l : list Json)
  | JsonObject (properties : list (string * Json)).

(** [x.name] for a value [x] that is a parsed JSON value or [undefined]
    ([None]), and a [name] that no prototype defines (the component reads
    [url], [licenseKey] and [key]): reading a property of [undefined] or
    [null] throws a [TypeError] (the outer [None]); an object gives its
    property or [undefined]; any other value gives [undefined]. *)
Definition Json_get (name : string) (x : option Json) : option (option Json) :=
  match x with
  | None => None
  | Some JsonNull => None
  | Some (JsonObject properties) => Some (JSObject.get name properties)
  | Some _ => Some None
  end.

(** The value as a condition. *)
Definition truthy (x : option Json) : bool :=
  match x with
  | None => false
  | Some JsonNull => false
  | Some (JsonBool b) => b
  | Some (JsonNumber n) =>
      negb (Qcanon.Qc_eq_bool n (Qcanon.Q2Qc (QArith_base.Qmake 0 1)))
  | Some (JsonString s) => negb (String.eqb s "")
  | Some (JsonArray _) => true
  | Some (JsonObject _) => true
  end.

(** What the awaited part of [handleTopUp] comes to: the parsed body of the
    response, or nothing when [plugin.getServerUrl ()], [fetch] or
    [response.json ()] threw or was rejected. *)
Inductive Reply : Type :=
  | NoData
  | Data (data : Json).

Inductive TopUpEvent : Type :=
  | SetLoading (loading : bool)
  | Navigate (url : option Json)
  | LicenseKeyChange (licenseKey : option Json)
  | ConsoleError.

(** [data.licenseKey.key.key]; [None] when a [TypeError] is thrown on the
    way. *)
Definition licenseKey_of (data : Json) : option (option Json) :=
  match Json_get "licenseKey" (Some data) with
  | None => None
  | Some licenseKey =>
      match Json_get "key" licenseKey with
      | None => None
      | Some key => Json_get "key" key
      end
  end.

(** The statements of the [try] block after [setLoading (true)], up to the
    first that throws; what is thrown is caught and logged. [href_accepted]
    tells whether the setter of [window.location.href] takes the value it is
    given: it throws a [SyntaxError] for a value that does not parse as a
    URL. [callback_returns] tells whether [onLicenseKeyChange] returns. *)
Definition handleTopUp_try (reply : Reply)
    (href_accepted callback_returns : bool) : list TopUpEvent :=
  match reply with
  | NoData => [ConsoleError]
  | Data data =>
      match Json_get "url" (Some data) with
      | None => [ConsoleError]
      | Some url =>
          if truthy url && negb href_accepted then [ConsoleError]
          else
            (if truthy url then [Navigate url] else [])
            ++ match licenseKey_of data with
               | None => [ConsoleError]
               | Some licenseKey =>
                   LicenseKeyChange licenseKey
                   :: (if callback_returns then [] else [ConsoleError])
               end
      end
  end.

(** [handleTopUp]: [setLoading (true)], the rest of the [try] block with its
    [catch], and [setLoading (false)] in the [finally]. *)
Definition handleTopUp (reply : Reply)
    (href_accepted callback_returns : bool) : list TopUpEvent :=
  SetLoading true :: handleTopUp_try reply href_accepted callback_returns
  ++ [SetLoading false].

Definition is_SetLoading (e : TopUpEvent) : bool :=
  match e with SetLoading _ => true | _ => false end.

Definition is_LicenseKeyChange (e : TopUpEvent) : bool :=
  match e with LicenseKeyChange _ => true | _ => false end.

Definition is_Navigate (e : TopUpEvent) : bool :=
  match e with Navigate _ => true | _ => false end.

Definition is_ConsoleError (e : TopUpEvent) : bool :=
  match e with ConsoleError => true | _ => false end.

(** The run gets as far as the call of [onLicenseKeyChange]: the reply is a
    body, its [url] is falsy or accepted by the window, and
    [licenseKey.key.key] can be read. *)
Definition reaches_callback (reply : Reply) (href : bool)
    (k : option Json) : Prop :=
  exists data url,
    reply = Data data
    /\ Json_get "url" (Some data) = Some url
    /\ (truthy url = true -> href = true)
    /\ licenseKey_of data = Some k.

(** Sample replies. *)
Definition ex_reply_checkout : Json :=
  JsonObject
    [ ("url", JsonString "https://checkout.example/session");
      ("licenseKey",
       JsonObject [("key", JsonObject [("key", JsonString "lk_123")])]) ].

Definition ex_reply_url_only : Json :=
  JsonObject [("url", JsonString "https://checkout.example/session")].

(* ================================================================== *)
(** ** The self-hosting actions ([setupProject], [getVercelDeployment])

    The two server actions run against the table [vercelTokens], the
    session, the license service and the Vercel API. A run is a computation
    on a world (the table, and the calls made so far to the license service
    and to Vercel) that returns or throws;
    what the surroundings answer is given with the run. One run is followed
    from its first statement to its last, with no other writer of the table
    in between. Console output is not part of the world. *)

Module Row.
(** Modelled from the spec: the schema of [vercelTokens] is not among the
    sources and the specification does not give it; a row has the columns
    the two actions read and write. [None] is a column left to its default
    ([updatedAt]) or [null]. *)
Record t : Type := mk
  { userId : string;
    token : string;
    projectId : option string;
    deploymentUrl : option string;
    updatedAt : option Z }.
End Row.

(** A call to the license service or to the Vercel API. [CreateProject] goes
    with the fixed settings of the source (root directory [web], framework
    [nextjs], the build, install and output settings) and the two production
    environment variables [SOLO_API_KEY] and [OPENAI_API_KEY];
    [CreateDeployment] goes with the fixed git source and project
    settings. *)
Inductive ExternalCall : Type :=
  | CreateLicenseKey (userId : string)
  | CreateProject (name SOLO_API_KEY OPENAI_API_KEY : string)
  | CreateDeployment (name : string).

Record World : Type := mkWorld
  { table : list Row.t; calls_made : list ExternalCall }.

(** An evaluation returns a value or throws. *)
Inductive outcome (A : Type) : Type :=
  | Returns (a : A)
  | Throws (error : JSError).
Arguments Returns {A} a.
Arguments Throws {A} error.

(** The answers of the surroundings to one run. *)
Record Surroundings : Type := mkSurroundings
  { (** [auth ().userId], [None] for [null] *)
    session_userId : option string;
    (** [createLicenseKeyFromUserId]: the [key.key] of the key, or a throw *)
    license_service : outcome string;
    (** the error with which a statement on the table is rejected, if it is:
        the [select], the first write, the last write *)
    select_rejected : option JSError;
    store_rejected : option JSError;
    record_rejected : option JSError;
    (** [Math.random ().toString (36).substring (2, 15)] *)
    random_suffix : string;
    (** [vercel.projects.createProject]: the [id] of the project, or a throw *)
    create_project : outcome string;
    (** [vercel.deployments.createDeployment]: the [url], or a throw *)
    create_deployment : outcome string;
    (** the two values of [new Date ()] *)
    date_store : Z;
    date_record : Z }.

Definition M (A : Type) : Type := World -> outcome A * World.

Definition ret {A : Type} (a : A) : M A := fun w => (Returns a, w).

Definition throw {A : Type} (error : JSError) : M A :=
  fun w => (Throws error, w).

Definition bind {A B : Type} (m : M A) (k : A -> M B) : M B :=
  fun w =>
    match m w with
    | (Returns a, w') => k a w'
    | (Throws error, w') => (Throws error, w')
    end.

(** [try { m } catch (error) { handler (error) }] *)
Definition try_catch {A : Type} (m : M A) (handler : JSError -> M A) : M A :=
  fun w =>
    match m w with
    | (Returns a, w') => (Returns a, w')
    | (Throws error, w') => handler error w'
    end.

Declare Scope action_scope.
Delimit Scope action_scope with action.
Notation "x <- m ;; k" := (bind m (fun x => k))
  (at level 61, m at next level, right associativity) : action_scope.
Notation "m ;;; k" := (bind m (fun _ => k))
  (at level 61, right associativity) : action_scope.

(** The call is made, and answered. *)
Definition external {A : Type} (c : ExternalCall) (answer : outcome A) : M A :=
  fun w =>
    (answer, {| table := table w; calls_made := calls_made w ++ [c] |}).

(** A statement on the table, when it is not rejected. *)
Definition statement {A : Type} (rejected : option JSError)
    (run : list Row.t -> A * list Row.t) : M A :=
  fun w =>
    match rejected with
    | Some error => (Throws error, w)
    | None =>
        let (a, rows) := run (table w) in
        (Returns a, {| table := rows; calls_made := calls_made w |})
    end.

(** [eq (vercelTokens.userId, userId)] *)
Definition of_user (userId : string) (r : Row.t) : bool :=
  String.eqb (Row.userId r) userId.

(** [db.select ().from (vercelTokens).where (...)]: the array of the rows *)
Definition db_select (rejected : option JSError) (userId : string)
    : M (list Row.t) :=
  statement rejected (fun rows => (filter (of_user userId) rows, rows)).

(** [... .limit (1)] *)
Definition db_select_limit_1 (rejected : option JSError) (userId : string)
    : M (list Row.t) :=
  statement rejected
    (fun rows => (firstn 1 (filter (of_user userId) rows), rows)).

(** [db.update (vercelTokens).set (...).where (...)] *)
Definition db_update (rejected : option JSError) (userId : string)
    (set : Row.t -> Row.t) : M unit :=
  statement rejected
    (fun rows =>
       (tt, map (fun r => if of_user userId r then set r else r) rows)).

(** [db.insert (vercelTokens).values (row)] *)
Definition db_insert (rejected : option JSError) (row : Row.t) : M unit :=
  statement rejected (fun rows => (tt, rows ++ [row])).

(** An array as a condition: an array is an object, and an object is
    truthy, the empty array too. *)
Definition array_truthy {A : Type} (l : list A) : bool := true.

(** [!s] for a string or [null]. *)
Definition not_string (s : option string) : bool :=
  match s with
  | None => true
  | Some EmptyString => true
  | Some _ => false
  end.

Module SetupResult.
Record t : Type := mk
  { success : bool;
    deploymentUrl : string;
    projectId : string;
    licenseKey : string }.
End SetupResult.

Module Deployment.
Record t : Type := mk
  { deploymentUrl : option string; projectId : option string }.
End Deployment.

Local Open Scope action_scope.

Definition setupProject (env : Surroundings) (vercelToken openaiKey : string)
    : M SetupResult.t :=
  match session_userId env with
  | None => throw (Error "User not authenticated")
  | Some userId =>
  if not_string (Some userId) then throw (Error "User not authenticated") else
  apiKey <- external (CreateLicenseKey userId) (license_service env) ;;
  if not_string (Some vercelToken)
  then throw (Error "Vercel token is required") else
  if not_string (Some openaiKey)
  then throw (Error "OpenAI API key is required") else
  existingToken <- db_select (select_rejected env) userId ;;
  (if array_truthy existingToken
   then db_update (store_rejected env) userId
          (fun r =>
             {| Row.userId := Row.userId r;
                Row.token := vercelToken;
                Row.projectId := Row.projectId r;
                Row.deploymentUrl := Row.deploymentUrl r;
                Row.updatedAt := Some (date_store env) |})
   else db_insert (store_rejected env)
          {| Row.userId := userId;
             Row.token := vercelToken;
             Row.projectId := None;
             Row.deploymentUrl := None;
             Row.updatedAt := None |}) ;;;
  let uniqueProjectName := ("file-organizer-" ++ random_suffix env)%string in
  try_catch
    (createProjectResponse <-
       external (CreateProject uniqueProjectName apiKey openaiKey)
         (create_project env) ;;
     deploymentResponse <-
       external (CreateDeployment uniqueProjectName) (create_deployment env) ;;
     db_update (record_rejected env) userId
       (fun r =>
          {| Row.userId := Row.userId r;
             Row.token := Row.token r;
             Row.projectId := Some createProjectResponse;
             Row.deploymentUrl := Some deploymentResponse;
             Row.updatedAt := Some (date_record env) |}) ;;;
     ret {| SetupResult.success := true;
            SetupResult.deploymentUrl := deploymentResponse;
            SetupResult.projectId := createProjectResponse;
            SetupResult.licenseKey := apiKey |})
    (fun error => throw error)
  end.

Definition getVercelDeployment (env : Surroundings)
    : M (option Deployment.t) :=
  match session_userId env with
  | None => throw (Error "User not authenticated")
  | Some userId =>
  if not_string (Some userId) then throw (Error "User not authenticated") else
  tokenRecord <- db_select_limit_1 (select_rejected env) userId ;;
  ret match tokenRecord with
      | r :: _ =>
          Some {| Deployment.deploymentUrl := Row.deploymentUrl r;
                  Deployment.projectId := Row.projectId r |}
      | [] => None
      end
  end.

Local Close Scope action_scope.

(** Surroundings in which nothing is rejected and nothing throws. *)
Definition ex_env (userId : string) : Surroundings :=
  {| session_userId := Some userId;
     license_service := Returns "lk_123";
     select_rejected := None;
     store_rejected := None;
     record_rejected := None;
     random_suffix := "k3j9x0q2";
     create_project := Returns "prj_1";
     create_deployment := Returns "file-organizer-k3j9x0q2.vercel.app";
     date_store := 1700000000000;
     date_record := 1700000005000 |}.

Definition ex_row_alice : Row.t :=
  Row.mk "alice" "old-token" None None (Some 1600000000000%Z).

Definition ex_world : World := {| table := [ex_row_alice]; calls_made := [] |}.

(* ================================================================== *)
(** ** The two calls that take a type, called with any string

    At run time [type] is a string, and the declared type
    [ContextItemType] no longer stands between a caller and the table
    [collectionMap]. *)










(* ================================================================== *)
(** * Properties *)

(** ** The model on small inputs *)

Example array_index_ex :
  JSObject.array_index "12" = Some 12%N
  /\ JSObject.array_index "012" = None
  /\ JSObject.array_index "0" = Some 0%N
  /\ JSObject.array_index "a.md" = None
  /\ JSObject.array_index "4294967294" = Some 4294967294%N
  /\ JSObject.array_index "4294967295" = None
  /\ JSObject.array_index "" = None.
Proof. repeat split; reflexivity. Qed.

(** Array-index keys come first, in numeric order; the other keys follow in
    the order they were created; an assignment to a key that is there keeps
    its place. *)
Example set_order_ex :
  JSObject.set "1" 10
    (JSObject.set "b" 20
       (JSObject.set "2" 30
          (JSObject.set "a" 40 (JSObject.set "b" 50 JSObject.empty))))
  = [("1", 10); ("2", 30); ("b", 20); ("a", 40)].
Proof. reflexivity. Qed.

Example delete_ex :
  JSObject.delete "b" [("1", 10); ("b", 20); ("a", 40)] = [("1", 10); ("a", 40)]
  /\ JSObject.delete "z" [("1", 10); ("b", 20)] = [("1", 10); ("b", 20)].
Proof. split; reflexivity. Qed.

Example Array_sort_ex :
  Array_sort (fun a b : Z * string => (fst b - fst a)%Z)
    [(1, "p"); (3, "q"); (1, "r"); (3, "s"); (2, "t")]%Z
  = [(3, "q"); (3, "s"); (2, "t"); (1, "p"); (1, "r")]%Z.
Proof. reflexivity. Qed.

Example String_split_ex :
  String_split "/" "notes/daily/2024" = ["notes"; "daily"; "2024"]
  /\ String_split "/" "" = [""]
  /\ String_split "/" "inbox/" = ["inbox"; ""].
Proof. repeat split; reflexivity. Qed.

Example folder_name_ex :
  or_else (Array_pop (String_split "/" "notes/daily")) "notes/daily" = "daily"
  /\ or_else (Array_pop (String_split "/" "inbox/")) "inbox/" = "inbox/"
  /\ or_else (Array_pop (String_split "/" "")) "" = "".
Proof. repeat split; reflexivity. Qed.

Example Number_toString_ex :
  Number_toString 1700000000000 = "1700000000000"
  /\ Number_toString 0 = "0" /\ Number_toString (-42) = "-42".
Proof. repeat split; reflexivity. Qed.

(** The scenario: tag (200), file [b.md] (150), file [a.md] (100); with the
    current file [c.md] set, it comes first. *)
Example scenario_ex :
  getUnifiedContext ex_store
  = [ITag ex_tag_x; IFile ex_file_b; IFile ex_file_a]
  /\ getUnifiedContext ex_store_current
     = [IFile ex_file_c; ITag ex_tag_x; IFile ex_file_b; IFile ex_file_a]
  /\ getUnifiedContext (toggleCurrentFile ex_store_current)
     = [ITag ex_tag_x; IFile ex_file_b; IFile ex_file_a]
  /\ getItemsByType Ty.file ex_store
     = Normal [IFile ex_file_a; IFile ex_file_b].
Proof. repeat split; reflexivity. Qed.

(** ** Objects: lookup, assignment and deletion *)

Module JSObjectFacts.
Import JSObject.

Section Facts.
Context {V : Type}.
Implicit Types (o : t V) (k : string) (v : V).

Lemma get_None k o : get k o = None <-> ~ In k (keys o).
Proof.
  induction o as [|[k' v'] o IH]; simpl.
  - tauto.
  - destruct (String.eqb_spec k' k) as [->|Hne].
    + split; [discriminate | tauto].
    + rewrite IH. tauto.
Qed.

Lemma get_Some_In k v o : get k o = Some v -> In (k, v) o.
Proof.
  induction o as [|[k' v'] o IH]; simpl; [discriminate|].
  destruct (String.eqb_spec k' k) as [->|Hne].
  - intros [= ->]. now left.
  - auto.
Qed.

Lemma In_get k v o : NoDup (keys o) -> In (k, v) o -> get k o = Some v.
Proof.
  induction o as [|[k' v'] o IH]; simpl; [tauto|].
  intros Hnd [Heq|Hin]; inversion Hnd as [|? ? Hout Hnd']; subst.
  - inversion Heq; subst. now rewrite String.eqb_refl.
  - destruct (String.eqb_spec k' k) as [->|Hne]; [|auto].
    exfalso. apply Hout. change k with (fst (k, v)). now apply in_map.
Qed.

Lemma has_true k o : has k o = true <-> In k (keys o).
Proof.
  unfold has. destruct (get k o) eqn:E.
  - split; [intros _|reflexivity].
    apply get_Some_In in E. change k with (fst (k, v)). now apply in_map.
  - apply get_None in E. split; [discriminate | tauto].
Qed.

Lemma has_false k o : has k o = false <-> ~ In k (keys o).
Proof.
  rewrite <- has_true. destruct (has k o); split; try tauto; try discriminate.
Qed.

(** Where the key is, as a split of the property list. *)
Lemma In_keys_split k o :
  In k (keys o) ->
  exists o1 v0 o2, o = o1 ++ (k, v0) :: o2 /\ ~ In k (keys o1).
Proof.
  induction o as [|[k' v'] o IH]; simpl; [tauto|].
  destruct (String.eqb_spec k' k) as [->|Hne].
  - intros _. exists [], v', o. simpl. auto.
  - intros [Heq|Hin]; [contradiction|].
    destruct (IH Hin) as (o1 & v0 & o2 & -> & Hout).
    exists ((k', v') :: o1), v0, o2. simpl. split; [reflexivity|].
    intros [E|E]; [contradiction | tauto].
Qed.

Lemma get_split k v o :
  get k o = Some v ->
  exists o1 o2, o = o1 ++ (k, v) :: o2 /\ ~ In k (keys o1).
Proof.
  induction o as [|[k' v'] o IH]; simpl; [discriminate|].
  destruct (String.eqb_spec k' k) as [->|Hne].
  - intros [= ->]. exists [], o. simpl. auto.
  - intros Hg. destruct (IH Hg) as (o1 & o2 & -> & Hout).
    exists ((k', v') :: o1), o2. simpl. split; [reflexivity|].
    intros [E|E]; [contradiction | tauto].
Qed.

Lemma replace_keys k v o : keys (replace k v o) = keys o.
Proof.
  induction o as [|[k' v'] o IH]; simpl; [reflexivity|].
  destruct (String.eqb k' k); simpl; [reflexivity | now rewrite IH].
Qed.

Lemma replace_split k v v0 o1 o2 :
  ~ In k (keys o1) ->
  replace k v (o1 ++ (k, v0) :: o2) = o1 ++ (k, v) :: o2.
Proof.
  induction o1 as [|[k' v'] o1 IH]; simpl; intros Hout.
  - now rewrite String.eqb_refl.
  - destruct (String.eqb_spec k' k) as [->|Hne]; [tauto|].
    rewrite IH; tauto.
Qed.

Lemma delete_absent k o : ~ In k (keys o) -> delete k o = o.
Proof.
  induction o as [|[k' v'] o IH]; simpl; [reflexivity|].
  intros Hout. destruct (String.eqb_spec k' k) as [->|Hne]; [tauto|].
  rewrite IH; tauto.
Qed.

Lemma delete_app k o1 o2 : delete k (o1 ++ o2) = delete k o1 ++ delete k o2.
Proof.
  induction o1 as [|[k' v'] o1 IH]; simpl; [reflexivity|].
  destruct (String.eqb k' k); simpl; now rewrite IH.
Qed.

Lemma delete_split k v0 o1 o2 :
  NoDup (keys (o1 ++ (k, v0) :: o2)) ->
  delete k (o1 ++ (k, v0) :: o2) = o1 ++ o2.
Proof.
  intros Hnd. unfold keys in Hnd. rewrite map_app in Hnd. simpl in Hnd.
  pose proof (NoDup_remove_2 _ _ _ Hnd) as Hout.
  rewrite in_app_iff in Hout.
  rewrite delete_app. simpl. rewrite String.eqb_refl.
  rewrite !delete_absent; unfold keys; tauto.
Qed.

Lemma delete_keys k o :
  keys (delete k o) = filter (fun k' => negb (String.eqb k' k)) (keys o).
Proof.
  induction o as [|[k' v'] o IH]; simpl; [reflexivity|].
  destruct (String.eqb k' k); simpl; now rewrite IH.
Qed.

Lemma get_delete_same k o : get k (delete k o) = None.
Proof.
  apply get_None. rewrite delete_keys, filter_In.
  rewrite String.eqb_refl. simpl. intros [_ H]. discriminate.
Qed.

Lemma get_delete_other k k' o : k' <> k -> get k' (delete k o) = get k' o.
Proof.
  intros Hne. induction o as [|[k1 v1] o IH]; simpl; [reflexivity|].
  destruct (String.eqb_spec k1 k) as [->|Hne1].
  - destruct (String.eqb_spec k k'); [congruence | exact IH].
  - simpl. now rewrite IH.
Qed.

Lemma insert_index_In n k v o kv :
  In kv (insert_index n k v o) <-> kv = (k, v) \/ In kv o.
Proof.
  induction o as [|[k' v'] o IH]; simpl.
  - intuition congruence.
  - destruct (array_index k') as [m|]; [destruct (m <? n)%N|]; simpl;
      rewrite ?IH; intuition congruence.
Qed.

Lemma insert_index_keys_In n k v o k' :
  In k' (keys (insert_index n k v o)) <-> k' = k \/ In k' (keys o).
Proof.
  induction o as [|[k1 v1] o IH]; simpl.
  - intuition congruence.
  - destruct (array_index k1) as [m|]; [destruct (m <? n)%N|]; simpl;
      rewrite ?IH; intuition congruence.
Qed.

Lemma insert_index_NoDup n k v o :
  ~ In k (keys o) -> NoDup (keys o) -> NoDup (keys (insert_index n k v o)).
Proof.
  induction o as [|[k1 v1] o IH]; simpl; intros Hout Hnd.
  - constructor; [tauto | constructor].
  - inversion Hnd as [|? ? Hout1 Hnd1]; subst.
    assert (Hcons : NoDup (k :: k1 :: keys o))
      by (constructor; [simpl; tauto | assumption]).
    destruct (array_index k1) as [m|]; [destruct (m <? n)%N|]; simpl; auto.
    constructor.
    + rewrite insert_index_keys_In. intuition congruence.
    + apply IH; tauto.
Qed.

Lemma get_replace_same k v o : In k (keys o) -> get k (replace k v o) = Some v.
Proof.
  induction o as [|[k' v'] o IH]; simpl; [tauto|].
  destruct (String.eqb_spec k' k) as [->|Hne]; simpl.
  - now rewrite String.eqb_refl.
  - intros [E|Hin]; [contradiction|].
    destruct (String.eqb_spec k' k); [contradiction | auto].
Qed.

Lemma get_replace_other k k' v o : k' <> k -> get k' (replace k v o) = get k' o.
Proof.
  intros Hne. induction o as [|[k1 v1] o IH]; simpl; [reflexivity|].
  destruct (String.eqb_spec k1 k) as [->|Hne1]; simpl.
  - destruct (String.eqb_spec k k'); [congruence | reflexivity].
  - now rewrite IH.
Qed.

Lemma get_insert_index_same n k v o :
  ~ In k (keys o) -> get k (insert_index n k v o) = Some v.
Proof.
  induction o as [|[k1 v1] o IH]; simpl; intros Hout.
  - now rewrite String.eqb_refl.
  - destruct (String.eqb_spec k1 k) as [->|Hne]; [tauto|].
    destruct (array_index k1) as [m|]; [destruct (m <? n)%N|]; simpl;
      rewrite ?String.eqb_refl; try reflexivity.
    destruct (String.eqb_spec k1 k); [contradiction|]. apply IH. tauto.
Qed.

Lemma get_insert_index_other n k k' v o :
  k' <> k -> get k' (insert_index n k v o) = get k' o.
Proof.
  intros Hne. induction o as [|[k1 v1] o IH]; simpl.
  - destruct (String.eqb_spec k k'); [congruence | reflexivity].
  - destruct (array_index k1) as [m|]; [destruct (m <? n)%N|]; simpl.
    + now rewrite IH.
    + destruct (String.eqb_spec k k'); [congruence | reflexivity].
    + destruct (String.eqb_spec k k'); [congruence | reflexivity].
Qed.

Lemma get_app_absent k o1 o2 :
  ~ In k (keys o1) -> get k (o1 ++ o2) = get k o2.
Proof.
  induction o1 as [|[k1 v1] o1 IH]; simpl; [reflexivity|].
  intros Hout. destruct (String.eqb_spec k1 k); [tauto|]. apply IH. tauto.
Qed.

Lemma get_app_present k o1 o2 :
  In k (keys o1) -> get k (o1 ++ o2) = get k o1.
Proof.
  induction o1 as [|[k1 v1] o1 IH]; simpl; [tauto|].
  destruct (String.eqb_spec k1 k); [reflexivity|].
  intros [E|Hin]; [contradiction | auto].
Qed.

(** Reading back what was assigned. *)
Lemma get_set_same k v o : get k (set k v o) = Some v.
Proof.
  unfold set. destruct (has k o) eqn:Hh.
  - apply get_replace_same. now apply has_true.
  - apply has_false in Hh. destruct (array_index k).
    + now apply get_insert_index_same.
    + rewrite get_app_absent by assumption. simpl.
      now rewrite String.eqb_refl.
Qed.

Lemma get_set_other k k' v o : k' <> k -> get k' (set k v o) = get k' o.
Proof.
  intros Hne. unfold set. destruct (has k o) eqn:Hh.
  - now apply get_replace_other.
  - destruct (array_index k).
    + now apply get_insert_index_other.
    + destruct (get k' o) eqn:E.
      * rewrite get_app_present; [assumption|].
        apply has_true. unfold has. now rewrite E.
      * apply get_None in E. rewrite get_app_absent by assumption.
        simpl. destruct (String.eqb_spec k k'); [congruence | reflexivity].
Qed.

(** The keys after an assignment: the old ones, and the assigned one. *)
Lemma set_keys_In k v o k' :
  In k' (keys (set k v o)) <-> k' = k \/ In k' (keys o).
Proof.
  unfold set. destruct (has k o) eqn:Hh.
  - rewrite replace_keys. apply has_true in Hh.
    split; [tauto | intros [->|H]; assumption].
  - destruct (array_index k).
    + apply insert_index_keys_In.
    + unfold keys. rewrite map_app, in_app_iff. simpl. intuition congruence.
Qed.

Lemma set_NoDup k v o : NoDup (keys o) -> NoDup (keys (set k v o)).
Proof.
  intros Hnd. unfold set. destruct (has k o) eqn:Hh.
  - now rewrite replace_keys.
  - apply has_false in Hh. destruct (array_index k).
    + now apply insert_index_NoDup.
    + unfold keys. rewrite map_app. simpl.
      apply NoDup_app; [assumption | constructor; [simpl; tauto|constructor] |].
      intros x Hx [<-|[]]. contradiction.
Qed.

Lemma delete_NoDup k o : NoDup (keys o) -> NoDup (keys (delete k o)).
Proof. intros Hnd. rewrite delete_keys. now apply NoDup_filter. Qed.

End Facts.
End JSObjectFacts.

(** ** Array-index keys: one key per index *)

Module ArrayIndexFacts.
Import JSObject.

Lemma len_nil : len "" = 0%N.
Proof. reflexivity. Qed.

Lemma len_cons c s : len (String c s) = N.succ (len s).
Proof. unfold len. cbn [String.length]. apply Nat2N.inj_succ. Qed.

Lemma digits_value_shift s acc :
  digits_value s acc
  = option_map (fun v => (acc * 10 ^ len s + v)%N) (digits_value s 0).
Proof.
  revert acc. induction s as [|c s IH]; intros acc.
  - cbn [digits_value option_map]. rewrite len_nil. f_equal. lia.
  - cbn [digits_value]. destruct (is_digit c); [|reflexivity].
    rewrite (IH (10 * acc + _)%N), (IH (10 * 0 + _)%N).
    destruct (digits_value s 0) as [v|]; [|reflexivity].
    cbn [option_map]. f_equal. rewrite len_cons, N.pow_succ_r'. lia.
Qed.

Lemma digit_lt c : is_digit c = true -> (N_of_ascii c - 48 < 10)%N.
Proof.
  unfold is_digit. rewrite andb_true_iff, !N.leb_le. lia.
Qed.

Lemma digit_inj c1 c2 :
  is_digit c1 = true -> is_digit c2 = true ->
  (N_of_ascii c1 - 48 = N_of_ascii c2 - 48)%N -> c1 = c2.
Proof.
  unfold is_digit. rewrite !andb_true_iff, !N.leb_le. intros H1 H2 E.
  rewrite <- (ascii_N_embedding c1), <- (ascii_N_embedding c2).
  f_equal. lia.
Qed.

Lemma digits_value_cons c s v :
  digits_value (String c s) 0 = Some v ->
  is_digit c = true /\
  exists w, digits_value s 0 = Some w
            /\ v = ((N_of_ascii c - 48) * 10 ^ len s + w)%N.
Proof.
  cbn [digits_value]. destruct (is_digit c); [|discriminate].
  rewrite digits_value_shift.
  destruct (digits_value s 0) as [w|]; [|discriminate].
  cbn [option_map]. intros [= <-]. split; [reflexivity|]. exists w.
  split; [reflexivity|]. lia.
Qed.

Lemma digits_value_bound s v :
  digits_value s 0 = Some v -> (v < 10 ^ len s)%N.
Proof.
  revert v. induction s as [|c s IH]; intros v.
  - cbn [digits_value]. intros [= <-]. rewrite len_nil. reflexivity.
  - intros H. apply digits_value_cons in H as (Hd & w & Hw & ->).
    apply IH in Hw. apply digit_lt in Hd.
    rewrite len_cons, N.pow_succ_r'. nia.
Qed.

(** Strings of digits of one length with one value are equal. *)
Lemma digits_value_inj_len s1 : forall s2 v,
  String.length s1 = String.length s2 ->
  digits_value s1 0 = Some v -> digits_value s2 0 = Some v -> s1 = s2.
Proof.
  induction s1 as [|c1 s1 IH]; intros [|c2 s2] v Hl H1 H2;
    try discriminate; [reflexivity|].
  injection Hl as Hl.
  apply digits_value_cons in H1 as (Hd1 & w1 & Hw1 & E1).
  apply digits_value_cons in H2 as (Hd2 & w2 & Hw2 & E2).
  pose proof (digits_value_bound _ _ Hw1) as B1.
  pose proof (digits_value_bound _ _ Hw2) as B2.
  assert (El : len s1 = len s2) by (unfold len; now rewrite Hl).
  rewrite El in *. subst v.
  assert (N_of_ascii c1 - 48 = N_of_ascii c2 - 48 /\ w1 = w2)%N as [Ed Ew].
  { apply (N.div_mod_unique (10 ^ len s2)); [assumption..|]. lia. }
  f_equal.
  - now apply digit_inj.
  - subst w2. eapply IH; eauto.
Qed.

(** Without a leading zero, the value tells the length. *)
Lemma digits_value_lower c s v :
  c <> "0"%char -> digits_value (String c s) 0 = Some v ->
  (10 ^ len s <= v)%N.
Proof.
  intros Hc H. apply digits_value_cons in H as (Hd & w & Hw & ->).
  assert (1 <= N_of_ascii c - 48)%N.
  { unfold is_digit in Hd. rewrite andb_true_iff, !N.leb_le in Hd.
    assert (N_of_ascii c <> 48%N); [|lia].
    intros E. apply Hc. rewrite <- (ascii_N_embedding c), E. reflexivity. }
  nia.
Qed.

Lemma array_index_digits k n :
  array_index k = Some n ->
  digits_value k 0 = Some n /\
  (k = "0" \/ exists c s, k = String c s /\ c <> "0"%char).
Proof.
  unfold array_index. destruct k as [|c rest]; [discriminate|].
  destruct (Ascii.eqb_spec c "0") as [->|Hc]; simpl andb.
  - destruct (String.eqb_spec rest "") as [->|Hr]; simpl negb; cbv iota;
      [|discriminate].
    simpl. intros [= <-]. split; [reflexivity | now left].
  - destruct (digits_value (String c rest) 0) as [m|] eqn:E; [|discriminate].
    destruct (m <? 4294967295)%N; [|discriminate].
    intros [= ->]. split; [reflexivity|]. right. eauto.
Qed.

Lemma pow10_le a b : (a <= b)%nat -> (10 ^ N.of_nat a <= 10 ^ N.of_nat b)%N.
Proof. intros H. apply N.pow_le_mono_r; lia. Qed.

Theorem array_index_inj k1 k2 n :
  array_index k1 = Some n -> array_index k2 = Some n -> k1 = k2.
Proof.
  intros H1 H2.
  apply array_index_digits in H1 as (D1 & C1).
  apply array_index_digits in H2 as (D2 & C2).
  assert (Hl : String.length k1 = String.length k2).
  { destruct C1 as [->|(c1 & s1 & -> & N1)];
      destruct C2 as [->|(c2 & s2 & -> & N2)]; [reflexivity| | |].
    - simpl in D1. injection D1 as <-.
      pose proof (digits_value_lower _ _ _ N2 D2) as L.
      pose proof (N.pow_nonzero 10 (len s2)). lia.
    - simpl in D2. injection D2 as <-.
      pose proof (digits_value_lower _ _ _ N1 D1) as L.
      pose proof (N.pow_nonzero 10 (len s1)). lia.
    - pose proof (digits_value_lower _ _ _ N1 D1) as L1.
      pose proof (digits_value_lower _ _ _ N2 D2) as L2.
      pose proof (digits_value_bound _ _ D1) as B1.
      pose proof (digits_value_bound _ _ D2) as B2.
      unfold len in *. cbn [String.length] in *.
      destruct (Nat.lt_total (String.length s1) (String.length s2))
        as [Lt|[E|Lt]]; [exfalso | now rewrite E | exfalso].
      + pose proof (pow10_le (S (String.length s1)) (String.length s2) Lt). lia.
      + pose proof (pow10_le (S (String.length s2)) (String.length s1) Lt).
        lia. }
  eapply digits_value_inj_len; eauto.
Qed.

End ArrayIndexFacts.

(** ** The enumeration order of an object is kept by its operations *)

Module JSObjectOrder.
Import JSObject JSObjectFacts ArrayIndexFacts.

Lemma key_before_trans k1 k2 k3 :
  key_before k1 k2 -> key_before k2 k3 -> key_before k1 k3.
Proof.
  unfold key_before.
  destruct (array_index k1), (array_index k2), (array_index k3);
    try tauto; lia.
Qed.

Lemma sorted_cons_trans k k1 l :
  key_before k k1 -> StronglySorted key_before (k1 :: l) ->
  StronglySorted key_before (k :: k1 :: l).
Proof.
  intros Hb Hs. constructor; [assumption|].
  constructor; [assumption|].
  apply StronglySorted_inv in Hs as [_ Hall].
  eapply Forall_impl; [|exact Hall].
  intros k' Hk'. eapply key_before_trans; eauto.
Qed.

Lemma sorted_filter (f : string -> bool) l :
  StronglySorted key_before l -> StronglySorted key_before (filter f l).
Proof.
  induction 1 as [|k l Hs IH Hall]; simpl; [constructor|].
  destruct (f k); [|assumption].
  constructor; [assumption|].
  rewrite Forall_forall in *. intros x Hx. apply filter_In in Hx.
  now apply Hall.
Qed.

Lemma sorted_snoc_string k l :
  array_index k = None -> StronglySorted key_before l ->
  StronglySorted key_before (l ++ [k]).
Proof.
  intros Hk. induction 1 as [|k1 l Hs IH Hall]; simpl.
  - repeat constructor.
  - constructor; [assumption|].
    rewrite Forall_app. split; [assumption|].
    constructor; [|constructor].
    unfold key_before. rewrite Hk. now destruct (array_index k1).
Qed.

Lemma sorted_app_l l1 l2 :
  StronglySorted key_before (l1 ++ l2) -> StronglySorted key_before l1.
Proof.
  induction l1 as [|a l1 IH]; simpl; intros Hs; [constructor|].
  apply StronglySorted_inv in Hs as [Hs Hall].
  constructor; [auto|]. rewrite Forall_app in Hall. tauto.
Qed.

Lemma sorted_before_last l k k' :
  StronglySorted key_before (l ++ [k]) -> In k' l -> key_before k' k.
Proof.
  induction l as [|a l IH]; simpl; intros Hs Hin; [destruct Hin|].
  apply StronglySorted_inv in Hs as [Hs Hall].
  destruct Hin as [->|Hin]; [|auto].
  rewrite Forall_forall in Hall. apply Hall.
  rewrite in_app_iff. right. now left.
Qed.

Section Order.
Context {V : Type}.
Implicit Types (o : t V) (k : string) (v : V).

Lemma insert_index_sorted n k v o :
  array_index k = Some n -> ~ In k (keys o) ->
  StronglySorted key_before (keys o) ->
  StronglySorted key_before (keys (insert_index n k v o)).
Proof.
  intros Hk. induction o as [|[k1 v1] o IH]; simpl; intros Hout Hs.
  - repeat constructor.
  - destruct (array_index k1) as [m|] eqn:E1;
      [destruct (N.ltb_spec m n) as [Hlt|Hge]|]; simpl.
    + pose proof Hs as Hs'. apply StronglySorted_inv in Hs' as [Hs1 Hall].
      constructor; [apply IH; tauto|].
      rewrite Forall_forall in *. intros k' Hk'.
      apply insert_index_keys_In in Hk' as [->|Hk']; [|now apply Hall].
      unfold key_before. now rewrite E1, Hk.
    + apply sorted_cons_trans; [|assumption].
      unfold key_before. rewrite E1, Hk.
      assert (m <> n); [|lia].
      intros ->. apply Hout. left. eapply array_index_inj; eauto.
    + apply sorted_cons_trans; [|assumption].
      unfold key_before. now rewrite E1, Hk.
Qed.

Theorem set_wf k v o : wf o -> wf (set k v o).
Proof.
  intros [Hnd Hs]. split; [now apply set_NoDup|].
  unfold set. destruct (has k o) eqn:Hh.
  - now rewrite replace_keys.
  - apply has_false in Hh. destruct (array_index k) as [n|] eqn:Hk.
    + now apply insert_index_sorted.
    + unfold keys. rewrite map_app. simpl. now apply sorted_snoc_string.
Qed.

Theorem delete_wf k o : wf o -> wf (delete k o).
Proof.
  intros [Hnd Hs]. split; [now apply delete_NoDup|].
  rewrite delete_keys. now apply sorted_filter.
Qed.

Lemma empty_wf : wf (@empty V).
Proof. split; constructor. Qed.

(** A new property whose key comes after every key there is goes last. *)
Lemma insert_index_last n k v o :
  (forall k', In k' (keys o) ->
              exists m, array_index k' = Some m /\ (m < n)%N) ->
  insert_index n k v o = o ++ [(k, v)].
Proof.
  induction o as [|[k1 v1] o IH]; simpl; intros Hall; [reflexivity|].
  destruct (Hall k1 (or_introl eq_refl)) as (m & -> & Hlt).
  apply N.ltb_lt in Hlt. rewrite Hlt. f_equal. apply IH. auto.
Qed.

Lemma set_last k v o :
  NoDup (keys (o ++ [(k, v)])) ->
  StronglySorted key_before (keys (o ++ [(k, v)])) ->
  set k v o = o ++ [(k, v)].
Proof.
  unfold keys. rewrite map_app. simpl. intros Hnd Hs.
  assert (Hout : ~ In k (keys o)).
  { apply NoDup_remove_2 in Hnd. now rewrite app_nil_r in Hnd. }
  unfold set. apply has_false in Hout as Hh. rewrite Hh.
  destruct (array_index k) as [n|] eqn:Hk; [|reflexivity].
  apply insert_index_last. intros k' Hk'.
  assert (Hb : key_before k' k) by (eapply sorted_before_last; eauto).
  unfold key_before in Hb. rewrite Hk in Hb.
  destruct (array_index k') as [m|] eqn:E; [|tauto].
  exists m. split; [reflexivity|]. exact Hb.
Qed.

Lemma spread_from o1 : forall o0,
  wf (o0 ++ o1) ->
  fold_left (fun acc kv => set (fst kv) (snd kv) acc) o1 o0 = o0 ++ o1.
Proof.
  induction o1 as [|[k v] o1 IH]; intros o0 Hwf; simpl.
  - now rewrite app_nil_r.
  - assert (E : o0 ++ (k, v) :: o1 = (o0 ++ [(k, v)]) ++ o1)
      by (now rewrite <- app_assoc).
    rewrite E in Hwf |- *.
    destruct Hwf as [Hnd Hs].
    rewrite set_last.
    + apply IH. now split.
    + unfold keys in *. rewrite map_app in Hnd.
      now apply NoDup_app_remove_r in Hnd.
    + unfold keys in *. rewrite map_app in Hs.
      now apply sorted_app_l in Hs.
Qed.

(** Spreading an object gives an object with the same property list. *)
Theorem spread_wf o : wf o -> spread o = o.
Proof. intros Hwf. unfold spread, empty. now rewrite spread_from. Qed.

End Order.
End JSObjectOrder.

(** ** The sort of arrays *)

Section SortFacts.
Context {A : Type}.
Variable key : A -> Z.

Lemma sort_insert_perm x l :
  Permutation (x :: l) (sort_insert (cmp_desc key) x l).
Proof.
  induction l as [|y l IH]; simpl; [reflexivity|].
  destruct (cmp_desc key x y <=? 0)%Z; [reflexivity|].
  rewrite perm_swap. now constructor.
Qed.

Lemma Array_sort_perm l : Permutation l (Array_sort (cmp_desc key) l).
Proof.
  induction l as [|x l IH]; simpl; [constructor|].
  rewrite <- sort_insert_perm. now constructor.
Qed.

Lemma sort_insert_desc x l :
  key_desc key l -> key_desc key (sort_insert (cmp_desc key) x l).
Proof.
  unfold key_desc. induction 1 as [|y l Hs IH Hall]; simpl.
  - repeat constructor.
  - unfold cmp_desc at 1. destruct (Z.leb_spec (key y - key x) 0) as [Hle|Hgt].
    + constructor; [now constructor|].
      constructor; [lia|].
      eapply Forall_impl; [|exact Hall]. simpl. intros z Hz. lia.
    + constructor; [assumption|].
      rewrite Forall_forall in *. intros z Hz.
      apply (Permutation_in _ (Permutation_sym (sort_insert_perm x l))) in Hz.
      destruct Hz as [<-|Hz]; [lia | now apply Hall].
Qed.

Lemma Array_sort_desc l : key_desc key (Array_sort (cmp_desc key) l).
Proof.
  induction l as [|x l IH]; simpl; [constructor|].
  now apply sort_insert_desc.
Qed.

Lemma sort_insert_at_key t x l :
  key_filter key t (sort_insert (cmp_desc key) x l) = key_filter key t (x :: l).
Proof.
  unfold key_filter. induction l as [|y l IH]; simpl; [reflexivity|].
  unfold cmp_desc at 1. destruct (Z.leb_spec (key y - key x) 0) as [Hle|Hgt];
    [reflexivity|].
  simpl. rewrite IH. simpl.
  destruct (Z.eqb_spec (key x) t), (Z.eqb_spec (key y) t);
    try reflexivity; lia.
Qed.

(** The sort is stable: the elements of one key keep their order. *)
Lemma Array_sort_at_key t l :
  key_filter key t (Array_sort (cmp_desc key) l) = key_filter key t l.
Proof.
  induction l as [|x l IH]; simpl; [reflexivity|].
  rewrite sort_insert_at_key. unfold key_filter in *. simpl. now rewrite IH.
Qed.

Lemma at_key_In t x l : In x (key_filter key t l) <-> In x l /\ key x = t.
Proof. unfold key_filter. rewrite filter_In, Z.eqb_eq. tauto. Qed.

Lemma desc_head_max x l y :
  key_desc key (x :: l) -> In y (x :: l) -> (key y <= key x)%Z.
Proof.
  intros Hs Hin. apply StronglySorted_inv in Hs as [_ Hall].
  destruct Hin as [<-|Hin]; [lia|].
  rewrite Forall_forall in Hall. now apply Hall.
Qed.

(** Two stable descending arrangements of one array are equal: the result
    of a stable sort by [cmp_desc key] is the same whatever the algorithm. *)
Theorem stable_desc_unique l1 : forall l2,
  key_desc key l1 -> key_desc key l2 ->
  (forall t, key_filter key t l1 = key_filter key t l2) -> l1 = l2.
Proof.
  induction l1 as [|x l1 IH]; intros l2 H1 H2 Heq.
  - destruct l2 as [|y l2]; [reflexivity|].
    specialize (Heq (key y)). unfold key_filter in Heq. simpl in Heq.
    rewrite Z.eqb_refl in Heq. discriminate.
  - destruct l2 as [|y l2].
    + specialize (Heq (key x)). unfold key_filter in Heq. simpl in Heq.
      rewrite Z.eqb_refl in Heq. discriminate.
    + assert (Hy : In y (x :: l1)).
      { apply (at_key_In (key y)). rewrite Heq. apply at_key_In.
        split; [now left | reflexivity]. }
      assert (Hx : In x (y :: l2)).
      { apply (at_key_In (key x)). rewrite <- Heq. apply at_key_In.
        split; [now left | reflexivity]. }
      pose proof (desc_head_max _ _ _ H1 Hy) as L1.
      pose proof (desc_head_max _ _ _ H2 Hx) as L2.
      assert (Ek : key x = key y) by lia.
      pose proof (Heq (key x)) as E0. unfold key_filter in E0. simpl in E0.
      rewrite Z.eqb_refl in E0. rewrite <- Ek, Z.eqb_refl in E0.
      injection E0 as -> E0.
      f_equal. apply IH.
      * now apply StronglySorted_inv in H1.
      * now apply StronglySorted_inv in H2.
      * intros t. specialize (Heq t). unfold key_filter in *. simpl in Heq.
        destruct (key y =? t)%Z; [now injection Heq | assumption].
Qed.

Theorem Array_sort_unique l l' :
  key_desc key l' -> (forall t, key_filter key t l' = key_filter key t l) ->
  l' = Array_sort (cmp_desc key) l.
Proof.
  intros Hd Hst.
  apply stable_desc_unique; [assumption | apply Array_sort_desc|].
  intros t. now rewrite Array_sort_at_key.
Qed.

Lemma desc_split_order l1 x l2 y :
  key_desc key (l1 ++ x :: l2) -> In y l2 -> (key y <= key x)%Z.
Proof.
  unfold key_desc. induction l1 as [|a l1 IH]; simpl; intros Hs Hin.
  - apply StronglySorted_inv in Hs as [_ Hall].
    rewrite Forall_forall in Hall. now apply Hall.
  - apply StronglySorted_inv in Hs as [Hs _]. auto.
Qed.

Lemma desc_nth l : forall i j a b,
  key_desc key l -> (i < j)%nat ->
  nth_error l i = Some a -> nth_error l j = Some b -> (key b <= key a)%Z.
Proof.
  unfold key_desc. induction l as [|x l IH]; intros i j a b Hs Hlt Ha Hb.
  - destruct i; discriminate.
  - apply StronglySorted_inv in Hs as [Hs Hall].
    destruct j as [|j]; [lia|]. simpl in Hb.
    destruct i as [|i]; simpl in Ha.
    + injection Ha as ->. rewrite Forall_forall in Hall.
      apply Hall. eapply nth_error_In; eauto.
    + eapply (IH i j); eauto. lia.
Qed.

(** In a descending array an element with a larger key comes first. *)
Lemma desc_appears_before l a b :
  key_desc key l -> In a l -> In b l -> (key a < key b)%Z ->
  appears_before b a l.
Proof.
  intros Hs Ha Hb Hlt.
  destruct (in_split _ _ Hb) as (l1 & l2 & ->).
  apply in_app_or in Ha as [Ha|[->|Ha]].
  - exfalso. destruct (in_split _ _ Ha) as (l1a & l1b & ->).
    rewrite <- app_assoc in Hs. simpl in Hs.
    assert (key b <= key a)%Z; [|lia].
    eapply desc_split_order; [exact Hs|].
    rewrite in_app_iff. right. now left.
  - lia.
  - destruct (in_split _ _ Ha) as (l2a & l2b & ->).
    now exists l1, l2a, l2b.
Qed.

Lemma desc_positions l i j a b :
  key_desc key l -> nth_error l i = Some a -> nth_error l j = Some b ->
  (key a < key b)%Z -> (j < i)%nat.
Proof.
  intros Hs Ha Hb Hlt.
  destruct (Nat.lt_total i j) as [L|[E|L]]; [exfalso|exfalso|assumption].
  - pose proof (desc_nth l i j a b Hs L Ha Hb). lia.
  - subst j. rewrite Ha in Hb. injection Hb as ->. lia.
Qed.

End SortFacts.

(* ================================================================== *)
(** ** The aggregate view *)

Lemma getUnifiedContext_plain s :
  includeCurrentFile s = false \/ currentFile s = None ->
  getUnifiedContext s = Array_sort by_createdAt_desc (collected s).
Proof.
  unfold getUnifiedContext. intros [-> | ->]; [reflexivity|].
  now destruct (includeCurrentFile s).
Qed.

Lemma getUnifiedContext_current s current :
  includeCurrentFile s = true -> currentFile s = Some current ->
  getUnifiedContext s
  = IFile current :: Array_sort by_createdAt_desc (collected s).
Proof. unfold getUnifiedContext. now intros -> ->. Qed.

Lemma sorted_newer_first l : newer_first (Array_sort by_createdAt_desc l).
Proof. apply (Array_sort_desc item_createdAt). Qed.

Lemma sorted_stamped t l :
  stamped t (Array_sort by_createdAt_desc l) = stamped t l.
Proof. apply (Array_sort_at_key item_createdAt). Qed.

Lemma sorted_perm l : Permutation l (Array_sort by_createdAt_desc l).
Proof. apply (Array_sort_perm item_createdAt). Qed.

(** C1. When the current file is not included (the flag is off or no current
    file is set), the aggregate view is a rearrangement of the collected
    category items in which an item with a larger [createdAt] comes before
    one with a smaller [createdAt], at every pair of positions, and in which
    the items of one [createdAt] keep the order they were collected in. *)
Theorem C1_unified_context_newest_first_stable (s : ContextItemsState) :
  includeCurrentFile s = false \/ currentFile s = None ->
  Permutation (collected s) (getUnifiedContext s)
  /\ (forall a b,
        In a (collected s) -> In b (collected s) ->
        (item_createdAt a < item_createdAt b)%Z ->
        appears_before b a (getUnifiedContext s)
        /\ forall i j,
             nth_error (getUnifiedContext s) i = Some a ->
             nth_error (getUnifiedContext s) j = Some b -> (j < i)%nat)
  /\ (forall t, stamped t (getUnifiedContext s) = stamped t (collected s)).
Proof.
  intros Hoff. rewrite (getUnifiedContext_plain s Hoff).
  split; [apply sorted_perm|]. split; [|intros t; apply sorted_stamped].
  intros a b Ha Hb Hlt. split.
  - apply (desc_appears_before item_createdAt); try assumption.
    + apply sorted_newer_first.
    + eapply Permutation_in; [apply sorted_perm | assumption].
    + eapply Permutation_in; [apply sorted_perm | assumption].
  - intros i j Hi Hj.
    eapply (desc_positions item_createdAt); eauto. apply sorted_newer_first.
Qed.

Lemma C1_witness :
  appears_before (ITag ex_tag_x) (IFile ex_file_a) (getUnifiedContext ex_store)
  /\ getUnifiedContext ex_store
     = [ITag ex_tag_x; IFile ex_file_b; IFile ex_file_a].
Proof.
  split; [|reflexivity].
  apply (C1_unified_context_newest_first_stable ex_store (or_intror eq_refl)).
  - simpl. auto.
  - simpl. auto.
  - simpl. lia.
Defined.

(** C2. When the inclusion flag is true and a current file is set, the first
    element of the aggregate view is the current file, whatever its
    [createdAt]; the elements after it are the items of the six collections
    of the state (files, folders, videos, tags, captured data, searches),
    all of them, newest first and stable. *)
Theorem C2_current_file_first (s : ContextItemsState) (current : File.t) :
  includeCurrentFile s = true -> currentFile s = Some current ->
  let items :=
    map IFile (JSObject.values (files s))
    ++ map IFolder (JSObject.values (folders s))
    ++ map IYouTube (JSObject.values (youtubeVideos s))
    ++ map ITag (JSObject.values (tags s))
    ++ map IScreenpipe (JSObject.values (screenpipe s))
    ++ map ISearch (JSObject.values (searchResults s)) in
  nth_error (getUnifiedContext s) 0 = Some (IFile current)
  /\ getUnifiedContext s
     = IFile current :: Array_sort by_createdAt_desc items
  /\ tl (getUnifiedContext s) = Array_sort by_createdAt_desc items
  /\ Permutation items (tl (getUnifiedContext s))
  /\ newer_first (tl (getUnifiedContext s))
  /\ (forall t, stamped t (tl (getUnifiedContext s)) = stamped t items)
  /\ List.length (tl (getUnifiedContext s))
     = (List.length (files s) + List.length (folders s)
        + List.length (youtubeVideos s) + List.length (tags s)
        + List.length (screenpipe s) + List.length (searchResults s))%nat.
Proof.
  intros Hflag Hcur items.
  rewrite (getUnifiedContext_current s current Hflag Hcur).
  change (collected s) with items. simpl.
  split; [reflexivity|]. split; [reflexivity|]. split; [reflexivity|].
  split; [apply sorted_perm|]. split; [apply sorted_newer_first|].
  split; [intros t; apply sorted_stamped|].
  rewrite <- (Permutation_length (sorted_perm items)).
  subst items. unfold JSObject.values.
  rewrite !length_app, !length_map. lia.
Qed.

Lemma C2_witness :
  getUnifiedContext ex_store_current
  = [IFile ex_file_c; ITag ex_tag_x; IFile ex_file_b; IFile ex_file_a]
  /\ nth_error (getUnifiedContext ex_store_current) 0
     = Some (IFile ex_file_c)
  /\ (File.createdAt ex_file_c < File.createdAt ex_file_a)%Z.
Proof.
  destruct (C2_current_file_first ex_store_current ex_file_c eq_refl eq_refl)
    as (Hfirst & Hview & _).
  split; [rewrite Hview; reflexivity|].
  split; [exact Hfirst | reflexivity].
Defined.

(** C3, as the store has it. After [clearAll ()] the aggregate view is empty,
    every collection is empty, the current-file slot is empty, and the
    inclusion flag is false: it is switched off, not put back to the [true]
    of the initial state. *)
Theorem C3_clearAll_empties_and_switches_off (s : ContextItemsState) :
  getUnifiedContext (clearAll s) = []
  /\ (forall key, collection key (clearAll s) = [])
  /\ currentFile (clearAll s) = None
  /\ includeCurrentFile (clearAll s) = false.
Proof.
  repeat split. intros key. now destruct key.
Qed.

(** Counterexample to C3 as the specification states it: after [clearAll ()] the inclusion flag is not the
    [true] the store starts with. *)
Lemma C3_counterexample :
  includeCurrentFile initial = true
  /\ ~ (getUnifiedContext (clearAll ex_store_current) = []
        /\ currentFile (clearAll ex_store_current) = None
        /\ includeCurrentFile (clearAll ex_store_current) = true).
Proof.
  split; [reflexivity|]. intros (_ & _ & H). discriminate H.
Qed.

(** C6. Two calls of [toggleCurrentFile ()] in a row give back the inclusion
    flag, and the whole state; one call negates the flag and changes no
    collection and not the current-file slot. *)
Theorem C6_toggle_involution (s : ContextItemsState) :
  includeCurrentFile (toggleCurrentFile (toggleCurrentFile s))
  = includeCurrentFile s
  /\ toggleCurrentFile (toggleCurrentFile s) = s
  /\ includeCurrentFile (toggleCurrentFile s) = negb (includeCurrentFile s)
  /\ files (toggleCurrentFile s) = files s
  /\ folders (toggleCurrentFile s) = folders s
  /\ youtubeVideos (toggleCurrentFile s) = youtubeVideos s
  /\ tags (toggleCurrentFile s) = tags s
  /\ screenpipe (toggleCurrentFile s) = screenpipe s
  /\ searchResults (toggleCurrentFile s) = searchResults s
  /\ currentFile (toggleCurrentFile s) = currentFile s.
Proof.
  destruct s as [f fo y t sp se c i]. unfold toggleCurrentFile. simpl.
  rewrite negb_involutive. repeat split.
Qed.

(* ================================================================== *)
(** ** One collection of the store *)

Section Collection.
Import JSObject JSObjectFacts JSObjectOrder.
Context {V : Type}.
Variable idf : V -> string.
Implicit Types (o : JSObject.t V) (v : V) (k : string).

Lemma replace_In k v o kv : In kv (replace k v o) -> kv = (k, v) \/ In kv o.
Proof.
  induction o as [|[k1 v1] o IH]; simpl; [tauto|].
  destruct (String.eqb_spec k1 k) as [->|Hne]; simpl; intuition.
Qed.

Lemma set_In k v o kv : In kv (set k v o) -> kv = (k, v) \/ In kv o.
Proof.
  unfold set. destruct (has k o).
  - apply replace_In.
  - destruct (array_index k).
    + apply insert_index_In.
    + rewrite in_app_iff. simpl. intuition.
Qed.

Lemma delete_In k o kv : In kv (delete k o) -> In kv o.
Proof.
  induction o as [|[k1 v1] o IH]; simpl; [tauto|].
  destruct (String.eqb k1 k); simpl; intuition.
Qed.

Lemma empty_ok : collection_ok idf empty.
Proof. split; [apply empty_wf | constructor]. Qed.

(** [{ ...o, [v.id]: v }] is again a collection. *)
Lemma add_ok o v :
  collection_ok idf o -> collection_ok idf (set (idf v) v (spread o)).
Proof.
  intros [Hwf Hk]. rewrite (spread_wf o Hwf). split; [now apply set_wf|].
  unfold keyed in *. rewrite Forall_forall in *. intros kv Hin.
  apply set_In in Hin as [->|Hin]; [reflexivity | auto].
Qed.

(** [{ ...o }] after [delete] is again a collection. *)
Lemma remove_ok o k :
  collection_ok idf o -> collection_ok idf (delete k (spread o)).
Proof.
  intros [Hwf Hk]. rewrite (spread_wf o Hwf). split; [now apply delete_wf|].
  unfold keyed in *. rewrite Forall_forall in *. intros kv Hin.
  apply delete_In in Hin. auto.
Qed.

Lemma split_absent_left k old o1 o2 :
  NoDup (keys (o1 ++ (k, old) :: o2)) -> ~ In k (keys o1).
Proof.
  unfold keys. rewrite map_app. simpl. intros Hnd Hin.
  apply NoDup_remove_2 in Hnd. apply Hnd. rewrite in_app_iff. now left.
Qed.

(** Adding under an id that is there replaces the item where it is. *)
Lemma add_in_place o v o1 old o2 :
  collection_ok idf o -> o = o1 ++ (idf v, old) :: o2 ->
  set (idf v) v (spread o) = o1 ++ (idf v, v) :: o2.
Proof.
  intros [Hwf Hk] ->. rewrite (spread_wf _ Hwf). destruct Hwf as [Hnd _].
  unfold set.
  assert (Hh : has (idf v) (o1 ++ (idf v, old) :: o2) = true).
  { apply has_true. unfold keys. rewrite map_app, in_app_iff. right. now left. }
  rewrite Hh. apply replace_split. eapply split_absent_left; eauto.
Qed.

(** Removing an id that is not there changes nothing. *)
Lemma remove_absent o k :
  collection_ok idf o -> get k o = None -> delete k (spread o) = o.
Proof.
  intros [Hwf _] Hg. rewrite (spread_wf _ Hwf).
  apply delete_absent. now apply get_None.
Qed.

(** Removing an id that is there removes its property and no other. *)
Lemma remove_present o k old o1 o2 :
  collection_ok idf o -> o = o1 ++ (k, old) :: o2 ->
  delete k (spread o) = o1 ++ o2.
Proof.
  intros [Hwf _] ->. rewrite (spread_wf _ Hwf). destruct Hwf as [Hnd _].
  now apply delete_split.
Qed.

Lemma keyed_values_ids o : keyed idf o -> map idf (values o) = keys o.
Proof.
  unfold keyed, values, keys. induction 1 as [|[k v] o Hkv Hall IH]; simpl.
  - reflexivity.
  - simpl in Hkv. now rewrite Hkv, IH.
Qed.

(** In a collection, the number of items of an id is 1 or 0. *)
Lemma count_in_collection o k :
  collection_ok idf o ->
  List.length (filter (fun v => String.eqb (idf v) k) (values o))
  = if has k o then 1%nat else 0%nat.
Proof.
  intros [[Hnd _] Hk].
  assert (E : List.length (filter (fun v => String.eqb (idf v) k) (values o))
              = List.length (filter (fun k' => String.eqb k' k) (keys o))).
  { rewrite <- (keyed_values_ids o Hk). clear.
    induction (values o) as [|v l IH]; simpl; [reflexivity|].
    destruct (String.eqb (idf v) k); simpl; now rewrite IH. }
  rewrite E. clear E Hk.
  destruct (has k o) eqn:Hh.
  - apply has_true in Hh. revert Hnd Hh.
    induction (keys o) as [|k1 l IH]; simpl; [tauto|].
    intros Hnd Hin. inversion Hnd as [|? ? Hout Hnd']; subst.
    destruct (String.eqb_spec k1 k) as [->|Hne]; simpl.
    + f_equal. clear - Hout. induction l as [|k2 l IH]; simpl; [reflexivity|].
      destruct (String.eqb_spec k2 k) as [->|Hne]; simpl.
      * exfalso. apply Hout. now left.
      * apply IH. intros H. apply Hout. now right.
    + destruct Hin as [E|Hin]; [contradiction|]. now apply IH.
  - apply has_false in Hh. clear Hnd. revert Hh.
    induction (keys o) as [|k1 l IH]; simpl; [reflexivity|].
    intros Hout. destruct (String.eqb_spec k1 k) as [->|Hne]; simpl.
    + exfalso. apply Hout. now left.
    + apply IH. tauto.
Qed.

Variable f : V -> ContextItem.

Lemma inject_keys o : keys (inject f o) = keys o.
Proof. unfold inject, keys. rewrite map_map. reflexivity. Qed.

Lemma inject_values o : values (inject f o) = map f (values o).
Proof. unfold inject, values. rewrite !map_map. reflexivity. Qed.

Lemma inject_get k o : get k (inject f o) = option_map f (get k o).
Proof.
  induction o as [|[k1 v1] o IH]; simpl; [reflexivity|].
  destruct (String.eqb k1 k); [reflexivity | exact IH].
Qed.

Lemma inject_app o1 o2 : inject f (o1 ++ o2) = inject f o1 ++ inject f o2.
Proof. apply map_app. Qed.

Hypothesis f_inj : forall v1 v2, f v1 = f v2 -> v1 = v2.

Lemma inject_inj o o' : inject f o = inject f o' -> o = o'.
Proof.
  revert o'. induction o as [|[k v] o IH]; intros [|[k' v'] o']; simpl;
    try discriminate; [reflexivity|].
  intros [= -> Hv Ho]. apply f_inj in Hv. subst. f_equal. now apply IH.
Qed.

(** A split of the view as base items is a split of the collection. *)
Lemma inject_split o p1 k x p2 :
  inject f o = p1 ++ (k, x) :: p2 ->
  exists o1 v o2, o = o1 ++ (k, v) :: o2 /\ p1 = inject f o1
                  /\ x = f v /\ p2 = inject f o2.
Proof.
  revert p1. induction o as [|[k1 v1] o IH]; intros p1; simpl.
  - destruct p1; discriminate.
  - destruct p1 as [|q p1]; simpl.
    + intros [= -> <- <-]. exists [], v1, o. simpl. auto.
    + intros [= <- Ho]. destruct (IH _ Ho) as (o1 & v & o2 & -> & -> & -> & ->).
      exists ((k1, v1) :: o1), v, o2. simpl. auto.
Qed.

End Collection.

(* ================================================================== *)
(** ** The store: what every call keeps *)

Lemma initial_ok : store_ok initial.
Proof. repeat split; constructor. Qed.

Lemma clearAll_ok s : store_ok (clearAll s).
Proof. repeat split; constructor. Qed.

Ltac store_parts :=
  match goal with
  | H : store_ok _ |- _ =>
      destruct H as (Hfiles & Hfolders & Hvideos & Htags & Hscreen & Hsearch)
  end.

Lemma addFile_ok x s : store_ok s -> store_ok (addFile x s).
Proof.
  intros H. store_parts. unfold store_ok, addFile. simpl.
  pose proof (add_ok File.id _ x Hfiles). tauto.
Qed.

Lemma addFolder_ok x s : store_ok s -> store_ok (addFolder x s).
Proof.
  intros H. store_parts. unfold store_ok, addFolder. simpl.
  pose proof (add_ok Folder.id _ x Hfolders). tauto.
Qed.

Lemma addYouTubeVideo_ok x s : store_ok s -> store_ok (addYouTubeVideo x s).
Proof.
  intros H. store_parts. unfold store_ok, addYouTubeVideo. simpl.
  pose proof (add_ok YouTube.id _ x Hvideos). tauto.
Qed.

Lemma addTag_ok x s : store_ok s -> store_ok (addTag x s).
Proof.
  intros H. store_parts. unfold store_ok, addTag. simpl.
  pose proof (add_ok Tag.id _ x Htags). tauto.
Qed.

Lemma addScreenpipe_ok x s : store_ok s -> store_ok (addScreenpipe x s).
Proof.
  intros H. store_parts. unfold store_ok, addScreenpipe. simpl.
  pose proof (add_ok Screenpipe.id _ x Hscreen). tauto.
Qed.

Lemma addSearchResults_ok x s : store_ok s -> store_ok (addSearchResults x s).
Proof.
  intros H. store_parts. unfold store_ok, addSearchResults. simpl.
  pose proof (add_ok Search.id _ x Hsearch). tauto.
Qed.

Lemma removeItem_ok type id s : store_ok s -> store_ok (removeItem type id s).
Proof.
  intros H. store_parts. unfold removeItem.
  destruct type; simpl; unfold store_ok; simpl.
  - pose proof (remove_ok File.id _ id Hfiles). tauto.
  - pose proof (remove_ok Folder.id _ id Hfolders). tauto.
  - pose proof (remove_ok YouTube.id _ id Hvideos). tauto.
  - pose proof (remove_ok Tag.id _ id Htags). tauto.
  - pose proof (remove_ok Screenpipe.id _ id Hscreen). tauto.
  - pose proof (remove_ok Search.id _ id Hsearch). tauto.
Qed.

(** The table has an entry for each of the six types. *)
Lemma collectionMap_total type :
  exists key, table_get type collectionMap = Some key.
Proof. destruct type; simpl; eauto. Qed.

Lemma getItemsByType_normal type s :
  exists key, table_get type collectionMap = Some key
              /\ getItemsByType type s = Normal (collection_values key s).
Proof.
  unfold getItemsByType. destruct (collectionMap_total type) as (key & ->).
  eauto.
Qed.

(** No call throws. *)
Lemma call_normal a s : exists s' r, call a s = Normal (s', r).
Proof.
  destruct a; simpl; eauto.
  destruct (getItemsByType_normal type s) as (key & _ & ->). eauto.
Qed.

(** Every call keeps the collections well formed. *)
Lemma call_ok a s s' r : store_ok s -> call a s = Normal (s', r) -> store_ok s'.
Proof.
  intros H. destruct a; simpl;
    try (intros [= <- <-];
         first [ now apply addFile_ok | now apply addFolder_ok
               | now apply addYouTubeVideo_ok | now apply addTag_ok
               | now apply addScreenpipe_ok | now apply addSearchResults_ok
               | now apply removeItem_ok | apply clearAll_ok
               | exact H ]).
  destruct (getItemsByType type s); [|discriminate]. now intros [= <- <-].
Qed.

Lemma calls_ok l : forall s,
  store_ok s -> exists s', calls l s = Some s' /\ store_ok s'.
Proof.
  induction l as [|a l IH]; intros s H; simpl; [eauto|].
  destruct (call_normal a s) as (s1 & r & E). rewrite E.
  apply IH. eapply call_ok; eauto.
Qed.

(** Every state the calls of the store reach from the initial state is well
    formed. *)
Lemma reachable_ok l s : calls l initial = Some s -> store_ok s.
Proof.
  intros E. destruct (calls_ok l initial initial_ok) as (s' & E' & H).
  rewrite E in E'. now injection E' as ->.
Qed.

Lemma collection_values_spec key s :
  collection_values key s = JSObject.values (collection key s).
Proof.
  destruct key; simpl; now rewrite inject_values.
Qed.

(** In a well-formed store the ids of a category are pairwise different. *)
Lemma store_ok_ids_unique key s : store_ok s -> ids_unique key s.
Proof.
  intros H. store_parts. unfold ids_unique.
  destruct key; simpl; rewrite map_map; simpl;
    [ destruct Hfiles as [[Hnd _] Hk] | destruct Hfolders as [[Hnd _] Hk]
    | destruct Hvideos as [[Hnd _] Hk] | destruct Htags as [[Hnd _] Hk]
    | destruct Hscreen as [[Hnd _] Hk] | destruct Hsearch as [[Hnd _] Hk] ];
    erewrite keyed_values_ids; eauto.
Qed.

Lemma set_files_same s : set_files (files s) s = s.
Proof. now destruct s. Qed.
Lemma set_folders_same s : set_folders (folders s) s = s.
Proof. now destruct s. Qed.
Lemma set_youtubeVideos_same s : set_youtubeVideos (youtubeVideos s) s = s.
Proof. now destruct s. Qed.
Lemma set_tags_same s : set_tags (tags s) s = s.
Proof. now destruct s. Qed.
Lemma set_screenpipe_same s : set_screenpipe (screenpipe s) s = s.
Proof. now destruct s. Qed.
Lemma set_searchResults_same s : set_searchResults (searchResults s) s = s.
Proof. now destruct s. Qed.

Lemma inject_get_None {V : Type} (f : V -> ContextItem) k (o : JSObject.t V) :
  JSObject.get k (inject f o) = None -> JSObject.get k o = None.
Proof. rewrite inject_get. now destruct (JSObject.get k o). Qed.

(* ================================================================== *)
(** ** Removing an item *)

Lemma removeItem_slot type id s :
  currentFile (removeItem type id s) = currentFile s
  /\ includeCurrentFile (removeItem type id s) = includeCurrentFile s.
Proof. unfold removeItem. destruct type; simpl; auto. Qed.

Lemma removeItem_others type id s key key' :
  table_get type collectionMap = Some key -> key' <> key ->
  collection key' (removeItem type id s) = collection key' s.
Proof.
  unfold removeItem. intros E Hne. rewrite E.
  destruct key, key'; simpl; congruence.
Qed.

Lemma removeItem_absent type id s key :
  store_ok s -> table_get type collectionMap = Some key ->
  JSObject.get id (collection key s) = None -> removeItem type id s = s.
Proof.
  intros H E Hg. store_parts. unfold removeItem. rewrite E.
  destruct key; simpl in *; apply inject_get_None in Hg.
  - rewrite (remove_absent File.id); auto using set_files_same.
  - rewrite (remove_absent Folder.id); auto using set_folders_same.
  - rewrite (remove_absent YouTube.id); auto using set_youtubeVideos_same.
  - rewrite (remove_absent Tag.id); auto using set_tags_same.
  - rewrite (remove_absent Screenpipe.id); auto using set_screenpipe_same.
  - rewrite (remove_absent Search.id); auto using set_searchResults_same.
Qed.

Lemma removeItem_present type id s key o1 old o2 :
  store_ok s -> table_get type collectionMap = Some key ->
  collection key s = o1 ++ (id, old) :: o2 ->
  collection key (removeItem type id s) = o1 ++ o2.
Proof.
  intros H E Hc. store_parts. unfold removeItem. rewrite E.
  destruct key; simpl in *;
    apply inject_split in Hc as (p1 & v & p2 & Ho & -> & -> & ->);
    rewrite <- inject_app; f_equal.
  - now apply (remove_present File.id _ _ v).
  - now apply (remove_present Folder.id _ _ v).
  - now apply (remove_present YouTube.id _ _ v).
  - now apply (remove_present Tag.id _ _ v).
  - now apply (remove_present Screenpipe.id _ _ v).
  - now apply (remove_present Search.id _ _ v).
Qed.

Lemma removeItem_gone type id s key :
  table_get type collectionMap = Some key ->
  JSObject.get id (collection key (removeItem type id s)) = None.
Proof.
  intros E. unfold removeItem. rewrite E.
  destruct key; simpl; rewrite inject_get, JSObjectFacts.get_delete_same;
    reflexivity.
Qed.

(** C5. [removeItem (type, id)] returns normally. With an id that is not in
    the collection of [type] it leaves the whole state as it is. With an id
    that is there, the collection loses that one property and keeps the
    others in their order; the five other collections, the current-file slot
    and the inclusion flag are unchanged. *)
Theorem C5_removeItem_absent_noop_present_only_that
    (s : ContextItemsState) (type : ContextItemType) (id : string) :
  store_ok s ->
  exists key,
    table_get type collectionMap = Some key
    /\ call (RemoveItem type id) s = Normal (removeItem type id s, None)
    /\ (JSObject.get id (collection key s) = None -> removeItem type id s = s)
    /\ (forall old,
          JSObject.get id (collection key s) = Some old ->
          exists o1 o2,
            collection key s = o1 ++ (id, old) :: o2
            /\ collection key (removeItem type id s) = o1 ++ o2
            /\ JSObject.get id (collection key (removeItem type id s)) = None)
    /\ (forall key', key' <> key ->
          collection key' (removeItem type id s) = collection key' s)
    /\ currentFile (removeItem type id s) = currentFile s
    /\ includeCurrentFile (removeItem type id s) = includeCurrentFile s.
Proof.
  intros H. destruct (collectionMap_total type) as (key & E).
  exists key. split; [exact E|]. split; [reflexivity|].
  split; [now apply removeItem_absent|].
  split.
  { intros old Hg.
    destruct (JSObjectFacts.get_split _ _ _ Hg) as (o1 & o2 & Ho & _).
    exists o1, o2. split; [exact Ho|].
    split; [now apply (removeItem_present type id s key o1 old o2)|].
    now apply removeItem_gone. }
  split; [intros key'; now apply removeItem_others|].
  apply removeItem_slot.
Qed.

Lemma ex_store_ok : store_ok ex_store.
Proof.
  unfold store_ok, collection_ok, JSObject.wf, keyed. simpl.
  repeat split; repeat constructor; simpl; intuition discriminate.
Defined.

Lemma C5_witness :
  removeItem Ty.tag "tag-y" ex_store = ex_store
  /\ JSObject.keys (files (removeItem Ty.file "a.md" ex_store)) = ["b.md"]
  /\ tags (removeItem Ty.file "a.md" ex_store) = tags ex_store.
Proof.
  destruct (C5_removeItem_absent_noop_present_only_that
              ex_store Ty.tag "tag-y" ex_store_ok)
    as (key & Hkey & _ & Habsent & _).
  split; [|split; reflexivity].
  apply Habsent. injection Hkey as <-. reflexivity.
Defined.

(* ================================================================== *)
(** ** No call fails *)










(* ================================================================== *)
(** ** Counting the items of an id *)

Lemma count_typed_app type id l1 l2 :
  count_typed_id type id (l1 ++ l2)
  = (count_typed_id type id l1 + count_typed_id type id l2)%nat.
Proof. unfold count_typed_id. now rewrite filter_app, length_app. Qed.

Lemma count_typed_perm type id l l' :
  Permutation l l' -> count_typed_id type id l = count_typed_id type id l'.
Proof.
  unfold count_typed_id. induction 1; simpl.
  - reflexivity.
  - destruct (_ && _); simpl; now rewrite IHPermutation.
  - destruct (Ty.eqb (item_type x) type && _), (Ty.eqb (item_type y) type && _);
      reflexivity.
  - congruence.
Qed.

Lemma count_id_perm id l l' :
  Permutation l l' -> count_id id l = count_id id l'.
Proof.
  unfold count_id. induction 1; simpl.
  - reflexivity.
  - destruct (String.eqb _ _); simpl; now rewrite IHPermutation.
  - destruct (String.eqb (item_id x) id), (String.eqb (item_id y) id);
      reflexivity.
  - congruence.
Qed.

Lemma count_typed_map {V : Type} (f : V -> ContextItem) (idf : V -> string)
    (X : ContextItemType) :
  (forall v, item_type (f v) = X) -> (forall v, item_id (f v) = idf v) ->
  forall type id l,
    count_typed_id type id (map f l)
    = if Ty.eqb X type
      then List.length (filter (fun v => String.eqb (idf v) id) l)
      else 0%nat.
Proof.
  intros HX Hid type id l. unfold count_typed_id.
  induction l as [|v l IH]; simpl.
  - now destruct (Ty.eqb X type).
  - rewrite HX, Hid. destruct (Ty.eqb X type); simpl; [|exact IH].
    destruct (String.eqb (idf v) id); simpl; now rewrite IH.
Qed.

Lemma inject_has {V : Type} (f : V -> ContextItem) k (o : JSObject.t V) :
  JSObject.has k (inject f o) = JSObject.has k o.
Proof.
  unfold JSObject.has. rewrite inject_get. now destruct (JSObject.get k o).
Qed.

(** Among the collected items, an id occurs in the items of a type once when
    the collection of the type holds it, and not at all otherwise. *)
Lemma count_collected type key id s :
  store_ok s -> table_get type collectionMap = Some key ->
  count_typed_id type id (collected s)
  = if JSObject.has id (collection key s) then 1%nat else 0%nat.
Proof.
  intros H E. store_parts. unfold collected.
  rewrite !count_typed_app.
  rewrite (count_typed_map IFile File.id Ty.file) by reflexivity.
  rewrite (count_typed_map IFolder Folder.id Ty.folder) by reflexivity.
  rewrite (count_typed_map IYouTube YouTube.id Ty.youtube) by reflexivity.
  rewrite (count_typed_map ITag Tag.id Ty.tag) by reflexivity.
  rewrite (count_typed_map IScreenpipe Screenpipe.id Ty.screenpipe)
    by reflexivity.
  rewrite (count_typed_map ISearch Search.id Ty.search) by reflexivity.
  destruct type; simpl in E; injection E as <-; simpl;
    rewrite inject_has, ?Nat.add_0_r.
  - now apply count_in_collection.
  - now apply count_in_collection.
  - now apply count_in_collection.
  - now apply count_in_collection.
  - now apply count_in_collection.
  - now apply count_in_collection.
Qed.

Lemma getUnifiedContext_parts s :
  getUnifiedContext s
  = prepended s ++ Array_sort by_createdAt_desc (collected s).
Proof.
  unfold getUnifiedContext, prepended.
  destruct (includeCurrentFile s); [|reflexivity].
  now destruct (currentFile s).
Qed.

Lemma count_sorted type key id s :
  store_ok s -> table_get type collectionMap = Some key ->
  count_typed_id type id (Array_sort by_createdAt_desc (collected s))
  = if JSObject.has id (collection key s) then 1%nat else 0%nat.
Proof.
  intros H E. rewrite <- (count_typed_perm _ _ _ _ (sorted_perm (collected s))).
  now apply count_collected.
Qed.

(* ================================================================== *)
(** ** Adding an item *)

Section AddGeneric.
Context {V : Type}.
Variables (idf : V -> string) (f : V -> ContextItem).

Lemma add_get (o : JSObject.t V) (x : V) :
  JSObject.get (idf x)
    (inject f (JSObject.set (idf x) x (JSObject.spread o)))
  = Some (f x).
Proof. rewrite inject_get, JSObjectFacts.get_set_same. reflexivity. Qed.

Lemma add_replaces (o : JSObject.t V) (x : V) o1 old o2 :
  collection_ok idf o ->
  inject f o = o1 ++ (idf x, old) :: o2 ->
  inject f (JSObject.set (idf x) x (JSObject.spread o))
  = o1 ++ (idf x, f x) :: o2.
Proof.
  intros Hok Hc.
  apply inject_split in Hc as (p1 & v & p2 & Ho & -> & -> & ->).
  rewrite (add_in_place idf o x p1 v p2 Hok Ho).
  now rewrite inject_app.
Qed.
End AddGeneric.

Lemma get_has {V : Type} k (o : JSObject.t V) v :
  JSObject.get k o = Some v -> JSObject.has k o = true.
Proof. unfold JSObject.has. now intros ->. Qed.

(** The state an add action leaves: the item is filed under its id, in the
    place of the item that had the id when there was one; nothing else
    changes. *)
Lemma add_action_effect a item key s :
  store_ok s -> added a = Some item ->
  table_get (item_type item) collectionMap = Some key ->
  exists s',
    call a s = Normal (s', None)
    /\ JSObject.get (item_id item) (collection key s') = Some item
    /\ (forall o1 old o2,
          collection key s = o1 ++ (item_id item, old) :: o2 ->
          collection key s' = o1 ++ (item_id item, item) :: o2)
    /\ (forall key', key' <> key -> collection key' s' = collection key' s)
    /\ currentFile s' = currentFile s
    /\ includeCurrentFile s' = includeCurrentFile s.
Proof.
  intros H Ha Hk. store_parts.
  destruct a; try discriminate; simpl in Ha; injection Ha as <-;
    simpl in Hk; injection Hk as <-; eexists; (split; [reflexivity|]);
    simpl; (split; [|split; [|split; [|split; reflexivity]]]).
  all: try (intros key' Hne; destruct key'; simpl; congruence).
  - apply (add_get File.id).
  - intros o1 old o2. now apply (add_replaces File.id).
  - apply (add_get Folder.id).
  - intros o1 old o2. now apply (add_replaces Folder.id).
  - apply (add_get YouTube.id).
  - intros o1 old o2. now apply (add_replaces YouTube.id).
  - apply (add_get Tag.id).
  - intros o1 old o2. now apply (add_replaces Tag.id).
  - apply (add_get Screenpipe.id).
  - intros o1 old o2. now apply (add_replaces Screenpipe.id).
  - apply (add_get Search.id).
  - intros o1 old o2. now apply (add_replaces Search.id).
Qed.

(** C4, as the store has it. The ids of each collection are pairwise
    different in the initial state and after every call. An add action files
    the item under its id: when the collection has an item of that id, the new
    item takes its place, whole, and the rest of the collection and the other
    collections stay as they are. Afterwards the sorted category items of the
    aggregate view hold exactly one item of that type with that id; the whole
    view holds one more when the included current file is of that type and
    id. *)
Theorem C4_ids_unique_and_add_replaces
    (s : ContextItemsState) (a : Action) (item : ContextItem) (key : Key.t) :
  store_ok s -> added a = Some item ->
  table_get (item_type item) collectionMap = Some key ->
  (store_ok initial /\ forall key', ids_unique key' s)
  /\ (forall a' s2 r,
        call a' s = Normal (s2, r) ->
        store_ok s2 /\ forall key', ids_unique key' s2)
  /\ exists s',
       call a s = Normal (s', None)
       /\ JSObject.get (item_id item) (collection key s') = Some item
       /\ (forall o1 old o2,
             collection key s = o1 ++ (item_id item, old) :: o2 ->
             collection key s' = o1 ++ (item_id item, item) :: o2)
       /\ (forall key', key' <> key -> collection key' s' = collection key' s)
       /\ count_typed_id (item_type item) (item_id item)
            (Array_sort by_createdAt_desc (collected s')) = 1%nat
       /\ count_typed_id (item_type item) (item_id item) (getUnifiedContext s')
          = (count_typed_id (item_type item) (item_id item) (prepended s')
             + 1)%nat.
Proof.
  intros H Ha Hk.
  split.
  { split; [apply initial_ok | intros key'; now apply store_ok_ids_unique]. }
  split.
  { intros a' s2 r E. pose proof (call_ok _ _ _ _ H E) as H2.
    split; [assumption | intros key'; now apply store_ok_ids_unique]. }
  destruct (add_action_effect a item key s H Ha Hk)
    as (s' & Ecall & Hget & Hplace & Hothers & _ & _).
  exists s'. repeat (split; [assumption|]).
  pose proof (call_ok _ _ _ _ H Ecall) as H'.
  assert (Hone : count_typed_id (item_type item) (item_id item)
                   (Array_sort by_createdAt_desc (collected s')) = 1%nat).
  { rewrite (count_sorted _ key _ _ H' Hk). now rewrite (get_has _ _ _ Hget). }
  split; [exact Hone|].
  now rewrite getUnifiedContext_parts, count_typed_app, Hone.
Qed.

Lemma ex_store_same_ok : store_ok ex_store_same.
Proof. exact ex_store_ok. Defined.

Lemma C4_witness :
  files (addFile ex_file_a2 ex_store_same)
  = [("a.md", ex_file_a2); ("b.md", ex_file_b)]
  /\ count_typed_id Ty.file "a.md"
       (Array_sort by_createdAt_desc
          (collected (addFile ex_file_a2 ex_store_same))) = 1%nat.
Proof.
  split; [reflexivity|].
  destruct (C4_ids_unique_and_add_replaces ex_store_same (AddFile ex_file_a2)
              (IFile ex_file_a2) Key.files ex_store_same_ok eq_refl eq_refl)
    as (_ & _ & s' & Ecall & _ & _ & _ & Hone & _).
  injection Ecall as <-. exact Hone.
Defined.

(** Counterexample to C4 as the specification states it: with [a.md] as the included current file and in the
    files, adding [a.md] again leaves two items of that id in the aggregate
    view, not one. *)
Lemma C4_counterexample :
  JSObject.has (File.id ex_file_a2) (files ex_store_same) = true
  /\ count_id (File.id ex_file_a2)
       (getUnifiedContext (addFile ex_file_a2 ex_store_same)) = 2%nat
  /\ ~ (count_id (File.id ex_file_a2)
          (getUnifiedContext (addFile ex_file_a2 ex_store_same)) = 1%nat).
Proof.
  split; [reflexivity|]. split; [reflexivity|]. discriminate.
Qed.

(* ================================================================== *)
(** ** The current file next to the files *)

Lemma count_typed_le_count_id type id l :
  (count_typed_id type id l <= count_id id l)%nat.
Proof.
  unfold count_typed_id, count_id. induction l as [|x l IH]; simpl; [lia|].
  destruct (Ty.eqb (item_type x) type), (String.eqb (item_id x) id); simpl; lia.
Qed.

Lemma In_collected_file x s :
  In x (JSObject.values (files s)) -> In (IFile x) (collected s).
Proof.
  intros Hin. unfold collected. rewrite in_app_iff. left. now apply in_map.
Qed.

(** C9. With the inclusion flag true, a current file set, and its id also in
    the files, the aggregate view holds that id twice among its file items:
    the current file at the front, and the file of the collection at its place
    among the sorted items. *)
Theorem C9_current_file_not_deduplicated
    (s : ContextItemsState) (current dup : File.t) :
  store_ok s ->
  includeCurrentFile s = true -> currentFile s = Some current ->
  JSObject.get (File.id current) (files s) = Some dup ->
  File.id dup = File.id current
  /\ nth_error (getUnifiedContext s) 0 = Some (IFile current)
  /\ (exists l1 l2,
        Array_sort by_createdAt_desc (collected s) = l1 ++ IFile dup :: l2
        /\ getUnifiedContext s = IFile current :: l1 ++ IFile dup :: l2)
  /\ count_typed_id Ty.file (File.id current) (getUnifiedContext s) = 2%nat
  /\ (2 <= count_id (File.id current) (getUnifiedContext s))%nat.
Proof.
  intros H Hflag Hcur Hget.
  assert (Hid : File.id dup = File.id current).
  { destruct H as ((_ & Hk) & _). apply JSObjectFacts.get_Some_In in Hget.
    unfold keyed in Hk. rewrite Forall_forall in Hk. exact (Hk _ Hget). }
  assert (Hin : In (IFile dup) (Array_sort by_createdAt_desc (collected s))).
  { eapply Permutation_in; [apply sorted_perm|]. apply In_collected_file.
    apply JSObjectFacts.get_Some_In in Hget.
    change dup with (snd (File.id current, dup)). now apply in_map. }
  assert (Htwo : count_typed_id Ty.file (File.id current) (getUnifiedContext s)
                 = 2%nat).
  { rewrite getUnifiedContext_parts, count_typed_app.
    rewrite (count_sorted Ty.file Key.files _ _ H eq_refl). simpl.
    rewrite inject_has, (get_has _ _ _ Hget).
    unfold prepended. rewrite Hflag, Hcur. unfold count_typed_id. simpl.
    now rewrite String.eqb_refl. }
  split; [exact Hid|].
  rewrite (getUnifiedContext_current s current Hflag Hcur) in *.
  split; [reflexivity|]. split.
  - destruct (in_split _ _ Hin) as (l1 & l2 & E). exists l1, l2.
    split; [exact E | now rewrite E].
  - split; [exact Htwo|]. rewrite <- Htwo. apply count_typed_le_count_id.
Qed.

Lemma C9_witness :
  count_typed_id Ty.file "a.md" (getUnifiedContext ex_store_same) = 2%nat
  /\ getUnifiedContext ex_store_same
     = [IFile ex_file_a; ITag ex_tag_x; IFile ex_file_b; IFile ex_file_a].
Proof.
  split; [|reflexivity].
  apply (C9_current_file_not_deduplicated ex_store_same ex_file_a ex_file_a
           ex_store_same_ok); reflexivity.
Defined.

(* ================================================================== *)
(** ** The captured data *)

(** The item a call of [addScreenpipeContext] makes. *)
Lemma addScreenpipeContext_screenpipe data now s :
  screenpipe (addScreenpipeContext data now s)
  = JSObject.set "screenpipe-context"
      (Screenpipe.mk "screenpipe-context" "Screenpipe Context" now data)
      (JSObject.spread (screenpipe s)).
Proof. reflexivity. Qed.

Lemma addScreenpipeContext_ok data now s :
  store_ok s -> store_ok (addScreenpipeContext data now s).
Proof. apply addScreenpipe_ok. Qed.

(** An object whose keys are all one key has at most one property. *)
Lemma single_key_object {V : Type} (k : string) (o : JSObject.t V) :
  NoDup (JSObject.keys o) ->
  (forall k', In k' (JSObject.keys o) -> k' = k) ->
  o = [] \/ exists v, o = [(k, v)].
Proof.
  destruct o as [|[k1 v1] [|[k2 v2] o]]; simpl; intros Hnd Hall.
  - now left.
  - right. exists v1. now rewrite (Hall k1 (or_introl eq_refl)).
  - exfalso. inversion Hnd as [|? ? Hout _]; subst. apply Hout. left.
    rewrite (Hall k1), (Hall k2); auto.
Qed.

Lemma addScreenpipeContext_single data now s :
  store_ok s ->
  (forall k, In k (JSObject.keys (screenpipe s)) -> k = "screenpipe-context") ->
  screenpipe (addScreenpipeContext data now s)
  = [("screenpipe-context",
      Screenpipe.mk "screenpipe-context" "Screenpipe Context" now data)].
Proof.
  intros H Hall. rewrite addScreenpipeContext_screenpipe.
  destruct H as (_ & _ & _ & _ & ((Hnd & Hs) & _) & _).
  rewrite (JSObjectOrder.spread_wf _ (conj Hnd Hs)).
  destruct (single_key_object _ _ Hnd Hall) as [->|(v & ->)]; reflexivity.
Qed.

Lemma screenpipe_calls_snoc l data now s :
  screenpipe_calls (l ++ [(data, now)]) s
  = addScreenpipeContext data now (screenpipe_calls l s).
Proof. unfold screenpipe_calls. now rewrite fold_left_app. Qed.

Lemma screenpipe_calls_inv l : forall s,
  store_ok s ->
  (forall k, In k (JSObject.keys (screenpipe s)) -> k = "screenpipe-context") ->
  store_ok (screenpipe_calls l s)
  /\ (forall k, In k (JSObject.keys (screenpipe (screenpipe_calls l s))) ->
                k = "screenpipe-context").
Proof.
  induction l as [|[data now] l IH]; intros s H Hall; simpl; [auto|].
  apply IH.
  - now apply addScreenpipeContext_ok.
  - rewrite (addScreenpipeContext_single data now s H Hall). simpl.
    intros k [<-|[]]. reflexivity.
Qed.

Lemma step_inv st s s' :
  direct_capture st = false -> step st s = Some s' ->
  store_ok s ->
  (forall k, In k (JSObject.keys (screenpipe s)) -> k = "screenpipe-context") ->
  store_ok s'
  /\ (forall k, In k (JSObject.keys (screenpipe s')) -> k = "screenpipe-context").
Proof.
  intros Hd E H Hall. destruct st as [data now|a]; simpl in E.
  - injection E as <-. split; [now apply addScreenpipeContext_ok|].
    rewrite (addScreenpipeContext_single data now s H Hall). simpl.
    intros k [<-|[]]. reflexivity.
  - destruct (call a s) as [[s1 r]|e] eqn:Ec; [|discriminate].
    injection E as <-. split; [eapply call_ok; eauto|].
    destruct a; simpl in Hd; try discriminate; simpl in Ec;
      try (injection Ec as <- _; exact Hall).
    + injection Ec as <- _. intros k Hk. apply Hall.
      destruct H as (_ & _ & _ & _ & (Hwf & _) & _).
      destruct type; simpl in Hk; try exact Hk.
      rewrite (JSObjectOrder.spread_wf _ Hwf), JSObjectFacts.delete_keys in Hk.
      now apply filter_In in Hk.
    + injection Ec as <- _. simpl. tauto.
    + destruct (getItemsByType type s); [|discriminate].
      injection Ec as <- _. exact Hall.
Qed.

Lemma steps_inv l : forall s,
  forallb (fun st => negb (direct_capture st)) l = true ->
  store_ok s ->
  (forall k, In k (JSObject.keys (screenpipe s)) -> k = "screenpipe-context") ->
  exists s',
    steps l s = Some s' /\ store_ok s'
    /\ (forall k, In k (JSObject.keys (screenpipe s')) ->
                  k = "screenpipe-context").
Proof.
  induction l as [|st l IH]; intros s Hl H Hall; simpl; [eauto|].
  simpl in Hl. apply andb_true_iff in Hl as [Hst Hl].
  apply negb_true_iff in Hst.
  assert (exists s1, step st s = Some s1) as (s1 & E).
  { destruct st as [data now|a]; simpl; [eauto|].
    destruct (call_normal a s) as (s1 & r & ->). eauto. }
  rewrite E. destruct (step_inv st s s1 Hst E H Hall) as (H1 & Hall1).
  now apply IH.
Qed.

(** C10. [addScreenpipeContext] files every capture under the one id
    ["screenpipe-context"]. From a store whose captured-data collection has no
    other id (the initial store, a cleared store), after any sequence of calls
    of the helper the collection holds at most one item, and after at least
    one call exactly the item of the last call. The same bound holds along
    every history from the initial store in which the captures are made
    through the helper, whatever other calls of the store come between
    them. *)
Theorem C10_screenpipe_at_most_one
    (s : ContextItemsState) (l : list (JSValue * Z)) :
  store_ok s ->
  (forall k, In k (JSObject.keys (screenpipe s)) -> k = "screenpipe-context") ->
  (List.length (screenpipe (screenpipe_calls l s)) <= 1)%nat
  /\ (forall k, In k (JSObject.keys (screenpipe (screenpipe_calls l s))) ->
                k = "screenpipe-context")
  /\ (forall l' data now,
        l = l' ++ [(data, now)] ->
        screenpipe (screenpipe_calls l s)
        = [("screenpipe-context",
            Screenpipe.mk "screenpipe-context" "Screenpipe Context" now data)])
  /\ (forall history,
        forallb (fun st => negb (direct_capture st)) history = true ->
        exists s',
          steps history initial = Some s'
          /\ (List.length (screenpipe s') <= 1)%nat).
Proof.
  intros H Hall.
  destruct (screenpipe_calls_inv l s H Hall) as (Hok & Hkeys).
  split; [|split; [exact Hkeys|split]].
  - destruct Hok as (_ & _ & _ & _ & ((Hnd & _) & _) & _).
    destruct (single_key_object _ _ Hnd Hkeys) as [->|(v & ->)]; simpl; lia.
  - intros l' data now ->. rewrite screenpipe_calls_snoc.
    destruct (screenpipe_calls_inv l' s H Hall) as (Hok' & Hkeys').
    now apply addScreenpipeContext_single.
  - intros history Hh.
    destruct (steps_inv history initial Hh initial_ok) as (s' & E & H' & Hk').
    { simpl. tauto. }
    exists s'. split; [exact E|].
    destruct H' as (_ & _ & _ & _ & ((Hnd & _) & _) & _).
    destruct (single_key_object _ _ Hnd Hk') as [->|(v & ->)]; simpl; lia.
Qed.

Lemma C10_witness :
  screenpipe
    (screenpipe_calls
       [(JSString "first", 10%Z); (JSNumber 2, 20%Z); (JSNull, 30%Z)] initial)
  = [("screenpipe-context",
      Screenpipe.mk "screenpipe-context" "Screenpipe Context" 30 JSNull)].
Proof.
  destruct (C10_screenpipe_at_most_one initial
              [(JSString "first", 10%Z); (JSNumber 2, 20%Z); (JSNull, 30%Z)]
              initial_ok)
    as (_ & _ & Hlast & _).
  - simpl. tauto.
  - apply (Hlast [(JSString "first", 10%Z); (JSNumber 2, 20%Z)]). reflexivity.
Defined.

(* ================================================================== *)
(** ** The factory helpers *)

Local Open Scope string_scope.

Lemma Number_toString_inj a b :
  Number_toString a = Number_toString b -> a = b.
Proof.
  unfold Number_toString. intros E. apply DecimalZ.to_int_inj.
  assert (E' : Some (Z.to_int a) = Some (Z.to_int b))
    by (rewrite <- !NilEmpty.isi; now rewrite E).
  now injection E'.
Qed.

Lemma search_id_inj a b :
  "search-" ++ Number_toString a = "search-" ++ Number_toString b -> a = b.
Proof. simpl. intros [= E]. now apply Number_toString_inj. Qed.

Lemma addSearchContext_searchResults query results now_id now s :
  searchResults (addSearchContext query results now_id now s)
  = JSObject.set (Search.id (search_item query results now_id now))
      (search_item query results now_id now)
      (JSObject.spread (searchResults s)).
Proof. reflexivity. Qed.

Lemma addSearchContext_ok query results now_id now s :
  store_ok s -> store_ok (addSearchContext query results now_id now s).
Proof. apply addSearchResults_ok. Qed.

(** C7, as the helpers have it. Each helper files one item, stamped with the
    clock reading, under an id computed from its arguments: the path for a
    file and for a folder, ["tag-"] and the tag name, ["youtube-"] and the
    video id, ["screenpipe-context"] for captured data, ["search-"] and the
    decimal clock reading for a search. The reference label is one fixed
    string for each of the first five; for a search it is built from the
    query. Two searches at different clock readings are filed under different
    ids and both stay; two searches at one clock reading share the id, and the
    second takes the place of the first. *)
Theorem C7_helpers_ids_labels_stamps (s : ContextItemsState) :
  store_ok s ->
  (forall file now,
      JSObject.get (FileArg.path file) (files (addFileContext file now s))
      = Some (File.mk (FileArg.path file) "File" now (FileArg.path file)
                (FileArg.title file) (FileArg.content file)))
  /\ (forall tagName now,
        JSObject.get ("tag-" ++ tagName) (tags (addTagContext tagName now s))
        = Some (Tag.mk ("tag-" ++ tagName) "Tag" now tagName))
  /\ (forall video now,
        JSObject.get ("youtube-" ++ VideoArg.videoId video)
          (youtubeVideos (addYouTubeContext video now s))
        = Some (YouTube.mk ("youtube-" ++ VideoArg.videoId video)
                  "YouTube Video" now (VideoArg.videoId video)
                  (VideoArg.title video) (VideoArg.transcript video)))
  /\ (forall folderPath now,
        JSObject.get folderPath (folders (addFolderContext folderPath now s))
        = Some (Folder.mk folderPath "Folder" now folderPath
                  (or_else (Array_pop (String_split "/" folderPath))
                     folderPath)))
  /\ (forall data now,
        JSObject.get "screenpipe-context"
          (screenpipe (addScreenpipeContext data now s))
        = Some (Screenpipe.mk "screenpipe-context" "Screenpipe Context"
                  now data))
  /\ (forall query results now_id now,
        JSObject.get ("search-" ++ Number_toString now_id)
          (searchResults (addSearchContext query results now_id now s))
        = Some (Search.mk ("search-" ++ Number_toString now_id)
                  ("Search: " ++ double_quote ++ query ++ double_quote)
                  now query results))
  /\ (forall q1 r1 t1 n1 q2 r2 t2 n2,
        t1 <> t2 ->
        let s2 := addSearchContext q2 r2 t2 n2 (addSearchContext q1 r1 t1 n1 s)
        in
        "search-" ++ Number_toString t1 <> "search-" ++ Number_toString t2
        /\ JSObject.get ("search-" ++ Number_toString t1) (searchResults s2)
           = Some (search_item q1 r1 t1 n1)
        /\ JSObject.get ("search-" ++ Number_toString t2) (searchResults s2)
           = Some (search_item q2 r2 t2 n2))
  /\ (forall q1 r1 n1 q2 r2 n2 t,
        let s1 := addSearchContext q1 r1 t n1 s in
        let s2 := addSearchContext q2 r2 t n2 s1 in
        JSObject.keys (searchResults s2) = JSObject.keys (searchResults s1)
        /\ JSObject.get ("search-" ++ Number_toString t) (searchResults s2)
           = Some (search_item q2 r2 t n2)).
Proof.
  intros H.
  repeat (split; [intros; apply JSObjectFacts.get_set_same|]).
  split.
  - intros q1 r1 t1 n1 q2 r2 t2 n2 Hne s2.
    assert (Hid : "search-" ++ Number_toString t1
                  <> "search-" ++ Number_toString t2).
    { intros E. apply Hne. now apply search_id_inj. }
    split; [exact Hid|]. subst s2.
    pose proof (addSearchContext_ok q1 r1 t1 n1 s H) as H1.
    rewrite (addSearchContext_searchResults q2).
    destruct H1 as (_ & _ & _ & _ & _ & (Hwf1 & _)).
    rewrite (JSObjectOrder.spread_wf _ Hwf1). split.
    + rewrite JSObjectFacts.get_set_other by exact Hid.
      apply JSObjectFacts.get_set_same.
    + apply JSObjectFacts.get_set_same.
  - intros q1 r1 n1 q2 r2 n2 t s1 s2. subst s2.
    split; [|apply JSObjectFacts.get_set_same].
    pose proof (addSearchContext_ok q1 r1 t n1 s H) as H1. fold s1 in H1.
    rewrite (addSearchContext_searchResults q2).
    destruct H1 as (_ & _ & _ & _ & _ & (Hwf1 & _)).
    rewrite (JSObjectOrder.spread_wf _ Hwf1).
    unfold JSObject.set.
    assert (Hh : JSObject.has (Search.id (search_item q2 r2 t n2))
                   (searchResults s1) = true).
    { eapply get_has. subst s1. apply JSObjectFacts.get_set_same. }
    rewrite Hh. apply JSObjectFacts.replace_keys.
Qed.

Lemma C7_witness :
  JSObject.keys
    (searchResults
       (addSearchContext "b" [] 1700000000001 1700000000001
          (addSearchContext "a" [] 1700000000000 1700000000000 ex_store)))
  = ["search-1700000000000"; "search-1700000000001"]
  /\ "search-" ++ Number_toString 1700000000000
     <> "search-" ++ Number_toString 1700000000001.
Proof.
  split; [reflexivity|].
  destruct (C7_helpers_ids_labels_stamps ex_store ex_store_ok)
    as (_ & _ & _ & _ & _ & _ & Hdistinct & _).
  apply (Hdistinct "a" [] 1700000000000%Z 1700000000000%Z
                   "b" [] 1700000000001%Z 1700000000001%Z).
  discriminate.
Defined.

(** Counterexample to C7 as the specification states it, on two points: the
    reference label of a search changes with the query, and two searches at
    one clock reading leave one entry, the second. *)
Lemma C7_counterexample :
  Search.reference (search_item "cats" [] 1700000000000 1700000000000)
  <> Search.reference (search_item "dogs" [] 1700000000000 1700000000000)
  /\ searchResults
       (addSearchContext "dogs" [] 1700000000000 1700000000000
          (addSearchContext "cats" [] 1700000000000 1700000000000 initial))
     = [("search-1700000000000",
         search_item "dogs" [] 1700000000000 1700000000000)].
Proof.
  split; [discriminate | reflexivity].
Qed.

(* ================================================================== *)
(** * Further properties of the store *)

Local Open Scope list_scope.

(** ** Assignment and deletion undo and absorb each other *)

Section ObjectRoundTrips.
Import JSObject JSObjectFacts JSObjectOrder.
Context {V : Type}.
Implicit Types (o : JSObject.t V) (v : V) (k : string).

Lemma delete_insert_index n k v o :
  ~ In k (keys o) -> delete k (insert_index n k v o) = o.
Proof.
  induction o as [|[k1 v1] o IH]; simpl; intros Hout.
  - now rewrite String.eqb_refl.
  - assert (Hne : k1 <> k) by tauto.
    assert (Hd : delete k o = o) by (apply delete_absent; tauto).
    assert (Hd1 : delete k ((k1, v1) :: o) = (k1, v1) :: o).
    { simpl. destruct (String.eqb_spec k1 k); [contradiction|].
      now rewrite Hd. }
    destruct (array_index k1) as [m|]; [destruct (m <? n)%N|].
    + simpl. destruct (String.eqb_spec k1 k); [contradiction|].
      f_equal. apply IH. tauto.
    + cbn [delete]. rewrite String.eqb_refl. exact Hd1.
    + cbn [delete]. rewrite String.eqb_refl. exact Hd1.
Qed.

(** A property that was not there is gone again after [o[k] = v] and
    [delete o[k]], and the others are where they were. *)
Lemma delete_set_absent k v o : ~ In k (keys o) -> delete k (set k v o) = o.
Proof.
  intros Hout. unfold set. apply has_false in Hout as Hh. rewrite Hh.
  destruct (array_index k).
  - now apply delete_insert_index.
  - rewrite delete_app, (delete_absent _ _ Hout). simpl.
    rewrite String.eqb_refl. apply app_nil_r.
Qed.

Lemma replace_same k v o : get k o = Some v -> replace k v o = o.
Proof.
  induction o as [|[k1 v1] o IH]; simpl; [reflexivity|].
  destruct (String.eqb_spec k1 k) as [->|Hne].
  - now intros [= ->].
  - intros Hg. now rewrite IH.
Qed.

(** Assigning twice the same value is assigning it once. *)
Lemma set_set_same k v o : set k v (set k v o) = set k v o.
Proof.
  unfold set at 1.
  rewrite (get_has k (set k v o) v (get_set_same k v o)).
  apply replace_same, get_set_same.
Qed.

Variable idf : V -> string.

Lemma add_remove_collection o v :
  collection_ok idf o -> get (idf v) o = None ->
  delete (idf v) (spread (set (idf v) v (spread o))) = o.
Proof.
  intros Hok Hg. pose proof (add_ok idf o v Hok) as [Hwf' _].
  rewrite (spread_wf _ Hwf'). destruct Hok as [Hwf _].
  rewrite (spread_wf _ Hwf). apply delete_set_absent. now apply get_None.
Qed.

Lemma add_add_collection o v :
  collection_ok idf o ->
  set (idf v) v (spread (set (idf v) v (spread o))) = set (idf v) v (spread o).
Proof.
  intros Hok. pose proof (add_ok idf o v Hok) as [Hwf' _].
  rewrite (spread_wf _ Hwf'). apply set_set_same.
Qed.

End ObjectRoundTrips.

(** X1. Adding an item under an id its collection does not hold and then
    removing that id gives back the store as it was: the collection has its
    old properties in their old order, and nothing else has moved. *)
Theorem X1_add_then_remove_restores
    (s : ContextItemsState) (a : Action) (item : ContextItem) (key : Key.t) :
  store_ok s -> added a = Some item ->
  table_get (item_type item) collectionMap = Some key ->
  JSObject.get (item_id item) (collection key s) = None ->
  exists s',
    call a s = Normal (s', None)
    /\ JSObject.get (item_id item) (collection key s') = Some item
    /\ removeItem (item_type item) (item_id item) s' = s.
Proof.
  intros H Ha Hk Hg.
  destruct (add_action_effect a item key s H Ha Hk) as (s' & Ec & Hget & _).
  exists s'. split; [exact Ec|]. split; [exact Hget|].
  store_parts.
  destruct a; try discriminate; simpl in Ha; injection Ha as <-;
    simpl in Hk; injection Hk as <-; simpl in Ec; injection Ec as <-;
    simpl in Hg; apply inject_get_None in Hg;
    unfold removeItem; simpl; destruct s; simpl in *;
    unfold addFile, addFolder, addYouTubeVideo, addTag, addScreenpipe,
      addSearchResults, set_files, set_folders, set_youtubeVideos, set_tags,
      set_screenpipe, set_searchResults; simpl; f_equal.
  - now apply (add_remove_collection File.id).
  - now apply (add_remove_collection Folder.id).
  - now apply (add_remove_collection YouTube.id).
  - now apply (add_remove_collection Tag.id).
  - now apply (add_remove_collection Screenpipe.id).
  - now apply (add_remove_collection Search.id).
Qed.

Lemma X1_witness :
  removeItem Ty.file "c.md" (addFile ex_file_c ex_store) = ex_store.
Proof.
  destruct (X1_add_then_remove_restores ex_store (AddFile ex_file_c)
              (IFile ex_file_c) Key.files ex_store_ok eq_refl eq_refl eq_refl)
    as (s' & Ec & _ & Hback).
  injection Ec as <-. exact Hback.
Defined.

(** X2. An add action is idempotent: calling it a second time with the same
    item leaves the store of the first call. *)
Theorem X2_add_twice_is_add_once
    (s : ContextItemsState) (a : Action) (item : ContextItem) :
  store_ok s -> added a = Some item ->
  exists s1,
    call a s = Normal (s1, None) /\ call a s1 = Normal (s1, None).
Proof.
  intros H Ha. store_parts.
  destruct a; try discriminate; simpl; eexists; (split; [reflexivity|]);
    do 2 f_equal.
  - unfold addFile. destruct s; simpl in *. unfold set_files; simpl. f_equal.
    now apply (add_add_collection File.id).
  - unfold addFolder. destruct s; simpl in *. unfold set_folders; simpl.
    f_equal. now apply (add_add_collection Folder.id).
  - unfold addYouTubeVideo. destruct s; simpl in *.
    unfold set_youtubeVideos; simpl. f_equal.
    now apply (add_add_collection YouTube.id).
  - unfold addTag. destruct s; simpl in *. unfold set_tags; simpl. f_equal.
    now apply (add_add_collection Tag.id).
  - unfold addScreenpipe. destruct s; simpl in *.
    unfold set_screenpipe; simpl. f_equal.
    now apply (add_add_collection Screenpipe.id).
  - unfold addSearchResults. destruct s; simpl in *.
    unfold set_searchResults; simpl. f_equal.
    now apply (add_add_collection Search.id).
Qed.

Lemma X2_witness :
  addFile ex_file_a2 (addFile ex_file_a2 ex_store)
  = addFile ex_file_a2 ex_store.
Proof.
  destruct (X2_add_twice_is_add_once ex_store (AddFile ex_file_a2)
              (IFile ex_file_a2) ex_store_ok eq_refl) as (s1 & E1 & E2).
  injection E1 as <-.
  exact (f_equal
           (fun c => match c with Normal (x, _) => x | Throw _ => initial end)
           E2).
Defined.

(** ** Calls on different collections *)

(** X3. Two calls that write different collections (add actions of different
    types, [removeItem] of another type) commute: in either order they leave
    the same store. *)
Theorem X3_calls_on_different_collections_commute
    (s : ContextItemsState) (a1 a2 : Action) (k1 k2 : Key.t) :
  touches a1 = Some k1 -> touches a2 = Some k2 -> k1 <> k2 ->
  exists s1 s2 s',
    call a1 s = Normal (s1, None) /\ call a2 s1 = Normal (s', None)
    /\ call a2 s = Normal (s2, None) /\ call a1 s2 = Normal (s', None).
Proof.
  intros H1 H2 Hne.
  destruct a1, a2; try discriminate;
    repeat match goal with t : ContextItemType |- _ => destruct t end;
    simpl in H1, H2; injection H1 as <-; injection H2 as <-;
    try (exfalso; apply Hne; reflexivity);
    do 3 eexists; repeat split; reflexivity.
Qed.

Lemma X3_witness :
  addTag ex_tag_x (removeItem Ty.file "a.md" ex_store)
  = removeItem Ty.file "a.md" (addTag ex_tag_x ex_store).
Proof.
  destruct (X3_calls_on_different_collections_commute ex_store
              (RemoveItem Ty.file "a.md") (AddTag ex_tag_x)
              Key.files Key.tags eq_refl eq_refl)
    as (s1 & s2 & s' & E1 & E2 & E3 & E4).
  - discriminate.
  - injection E1 as <-. injection E3 as <-.
    injection E2 as ->. now injection E4.
Defined.

(** ** What the aggregate view holds *)

Lemma In_collected i s :
  In i (collected s)
  <-> exists key, table_get (item_type i) collectionMap = Some key
                  /\ In i (collection_values key s).
Proof.
  unfold collected. rewrite !in_app_iff, !in_map_iff. split.
  - intros [(x & <- & Hx)|[(x & <- & Hx)|[(x & <- & Hx)|[(x & <- & Hx)
           |[(x & <- & Hx)|(x & <- & Hx)]]]]];
      eexists; (split; [reflexivity|]); simpl; now apply in_map.
  - intros (key & Hk & Hin).
    destruct i; simpl in Hk; injection Hk as <-; simpl in Hin;
      apply in_map_iff in Hin as (y & E & Hy); eauto 10.
Qed.

(** X4. The aggregate view holds the included current file and the items of
    the six collections, and nothing else: an item is in the view exactly when
    it is the included current file or [getItemsByType] of its type returns
    it. *)
Theorem X4_view_members (s : ContextItemsState) (i : ContextItem) :
  In i (getUnifiedContext s)
  <-> In i (prepended s)
      \/ exists items, getItemsByType (item_type i) s = Normal items
                       /\ In i items.
Proof.
  rewrite getUnifiedContext_parts, in_app_iff.
  assert (Hs : In i (Array_sort by_createdAt_desc (collected s))
               <-> In i (collected s)).
  { split; apply Permutation_in;
      [apply Permutation_sym|]; apply sorted_perm. }
  rewrite Hs, In_collected. unfold getItemsByType.
  split; (intros [Hp|Hc]; [now left|right]).
  - destruct Hc as (key & -> & Hin). eauto.
  - destruct Hc as (items & E & Hin).
    destruct (table_get (item_type i) collectionMap) as [key|];
      [|discriminate].
    injection E as <-. eauto.
Qed.

Lemma X4_witness : In (ITag ex_tag_x) (getUnifiedContext ex_store_current).
Proof.
  apply (X4_view_members ex_store_current (ITag ex_tag_x)).
  right. exists [ITag ex_tag_x]. split; [reflexivity | now left].
Defined.

(** X5. The aggregate view has as many elements as the six collections have
    properties, and one more when the current file is included. *)
Theorem X5_view_length (s : ContextItemsState) :
  List.length (getUnifiedContext s)
  = (List.length (prepended s)
     + (List.length (files s) + List.length (folders s)
        + List.length (youtubeVideos s) + List.length (tags s)
        + List.length (screenpipe s) + List.length (searchResults s)))%nat.
Proof.
  rewrite getUnifiedContext_parts, length_app. f_equal.
  rewrite <- (Permutation_length (sorted_perm (collected s))).
  unfold collected, JSObject.values.
  rewrite !length_app, !length_map. lia.
Qed.

(** ** The inclusion flag after [clearAll] *)

Lemma call_keeps_flag a s s' r :
  is_toggle a = false -> call a s = Normal (s', r) ->
  includeCurrentFile s = false -> includeCurrentFile s' = false.
Proof.
  intros Ht E Hf. destruct a; try discriminate; simpl in E;
    try (injection E as <- _; exact Hf).
  - injection E as <- _. now rewrite (proj2 (removeItem_slot _ _ _)).
  - now injection E as <- _.
  - destruct (getItemsByType type s); [|discriminate].
    injection E as <- _. exact Hf.
Qed.

Lemma calls_keep_flag l : forall s,
  forallb (fun a => negb (is_toggle a)) l = true ->
  includeCurrentFile s = false ->
  exists s', calls l s = Some s' /\ includeCurrentFile s' = false.
Proof.
  induction l as [|a l IH]; intros s Hl Hf; simpl; [eauto|].
  simpl in Hl. apply andb_true_iff in Hl as [Ha Hl].
  apply negb_true_iff in Ha.
  destruct (call_normal a s) as (s1 & r & E). rewrite E.
  apply IH; [assumption|]. eapply call_keeps_flag; eauto.
Qed.

(** X6. [clearAll] switches the current file off for good: along every
    sequence of calls after it that does not call [toggleCurrentFile]
    (adding items, setting the current file, removing, clearing again), the
    inclusion flag stays false and the view is the sorted category items,
    without the current file. *)
Theorem X6_after_clearAll_current_file_hidden
    (s : ContextItemsState) (l : list Action) :
  forallb (fun a => negb (is_toggle a)) l = true ->
  exists s',
    calls (ClearAll :: l) s = Some s'
    /\ includeCurrentFile s' = false
    /\ prepended s' = []
    /\ getUnifiedContext s' = Array_sort by_createdAt_desc (collected s').
Proof.
  intros Hl. simpl.
  destruct (calls_keep_flag l (clearAll s) Hl eq_refl) as (s' & E & Hf).
  exists s'. split; [exact E|]. split; [exact Hf|].
  split; [unfold prepended; now rewrite Hf|].
  apply getUnifiedContext_plain. now left.
Qed.

Lemma X6_witness :
  exists s',
    calls [ClearAll; SetCurrentFile (Some ex_file_c); AddFile ex_file_a]
      ex_store_current = Some s'
    /\ currentFile s' = Some ex_file_c
    /\ getUnifiedContext s' = [IFile ex_file_a].
Proof.
  destruct (X6_after_clearAll_current_file_hidden ex_store_current
              [SetCurrentFile (Some ex_file_c); AddFile ex_file_a] eq_refl)
    as (s' & E & _ & _ & Hview).
  exists s'. split; [exact E|].
  simpl in E. injection E as <-. split; reflexivity.
Defined.

(** X7. [toggleCurrentFile] shows or hides the current file and nothing
    else: with a current file set, the two views, before and after the call,
    differ by that file at the front; with none set, they are equal. *)
Theorem X7_toggle_shows_or_hides_current_file (s : ContextItemsState) :
  (forall c, currentFile s = Some c -> includeCurrentFile s = true ->
             getUnifiedContext s
             = IFile c :: getUnifiedContext (toggleCurrentFile s))
  /\ (forall c, currentFile s = Some c -> includeCurrentFile s = false ->
                getUnifiedContext (toggleCurrentFile s)
                = IFile c :: getUnifiedContext s)
  /\ (currentFile s = None ->
      getUnifiedContext (toggleCurrentFile s) = getUnifiedContext s).
Proof.
  unfold getUnifiedContext, toggleCurrentFile. simpl. repeat split.
  - now intros c -> ->.
  - now intros c -> ->.
  - intros ->. now destruct (includeCurrentFile s).
Qed.

Lemma X7_witness :
  getUnifiedContext ex_store_current
  = IFile ex_file_c :: getUnifiedContext (toggleCurrentFile ex_store_current).
Proof.
  apply (X7_toggle_shows_or_hides_current_file ex_store_current); reflexivity.
Defined.

(** ** The newest item *)

Lemma In_collected_after_add a item key s s' x :
  store_ok s -> added a = Some item ->
  table_get (item_type item) collectionMap = Some key ->
  call a s = Normal (s', None) ->
  In x (collected s') -> x = item \/ In x (collected s).
Proof.
  intros H Ha Hk Ec Hin. store_parts.
  apply In_collected in Hin as (kx & Hkx & Hin).
  assert (Hcases : x = item \/ In x (collection_values kx s));
    [|destruct Hcases as [->|Hc]; [now left|right; apply In_collected; eauto]].
  destruct a; try discriminate; simpl in Ha; injection Ha as <-;
    simpl in Ec; injection Ec as <-; simpl in Hk; injection Hk as <-;
    destruct kx; simpl in Hin |- *; try (now right);
    apply in_map_iff in Hin as (v & <- & Hv);
    apply in_map_iff in Hv as ([k' v'] & Ev & Hkv); simpl in Ev; subst v';
    [ rewrite (JSObjectOrder.spread_wf _ (proj1 Hfiles)) in Hkv
    | rewrite (JSObjectOrder.spread_wf _ (proj1 Hfolders)) in Hkv
    | rewrite (JSObjectOrder.spread_wf _ (proj1 Hvideos)) in Hkv
    | rewrite (JSObjectOrder.spread_wf _ (proj1 Htags)) in Hkv
    | rewrite (JSObjectOrder.spread_wf _ (proj1 Hscreen)) in Hkv
    | rewrite (JSObjectOrder.spread_wf _ (proj1 Hsearch)) in Hkv ];
    apply set_In in Hkv as [[= _ ->]|Hkv]; try (now left);
    right; apply in_map; change v with (snd (k', v)); now apply in_map.
Qed.

(** X8. An item added with a [createdAt] larger than that of every item
    collected so far is the first of the sorted category items: without an
    included current file it is the first element of the aggregate view. *)
Theorem X8_newest_added_item_first
    (s : ContextItemsState) (a : Action) (item : ContextItem) (key : Key.t) :
  store_ok s -> added a = Some item ->
  table_get (item_type item) collectionMap = Some key ->
  (forall x, In x (collected s) ->
             (item_createdAt x < item_createdAt item)%Z) ->
  exists s',
    call a s = Normal (s', None)
    /\ hd_error (Array_sort by_createdAt_desc (collected s')) = Some item
    /\ (includeCurrentFile s = false \/ currentFile s = None ->
        hd_error (getUnifiedContext s') = Some item).
Proof.
  intros H Ha Hk Hnew.
  destruct (add_action_effect a item key s H Ha Hk)
    as (s' & Ec & Hget & _ & _ & Hcur & Hflag).
  exists s'. split; [exact Ec|].
  assert (Hhd : hd_error (Array_sort by_createdAt_desc (collected s'))
                = Some item).
  { assert (Hin : In item (Array_sort by_createdAt_desc (collected s'))).
    { eapply Permutation_in; [apply sorted_perm|]. apply In_collected.
      exists key. split; [exact Hk|]. rewrite collection_values_spec.
      apply JSObjectFacts.get_Some_In in Hget.
      change item with (snd (item_id item, item)). now apply in_map. }
    pose proof (sorted_newer_first (collected s')) as Hs.
    destruct (Array_sort by_createdAt_desc (collected s')) as [|h t] eqn:E;
      [destruct Hin|].
    simpl. f_equal.
    assert (Hh : In h (collected s')).
    { eapply Permutation_in; [apply Permutation_sym, sorted_perm|].
      rewrite E. now left. }
    destruct (In_collected_after_add a item key s s' h H Ha Hk Ec Hh)
      as [->|Hold]; [reflexivity|].
    exfalso. apply Hnew in Hold.
    pose proof (desc_head_max item_createdAt h t item Hs Hin). lia. }
  split; [exact Hhd|].
  intros Hoff. rewrite getUnifiedContext_plain; [exact Hhd|].
  rewrite Hcur, Hflag. exact Hoff.
Qed.

Lemma X8_witness :
  hd_error (getUnifiedContext (addFile ex_file_a2 ex_store))
  = Some (IFile ex_file_a2).
Proof.
  destruct (X8_newest_added_item_first ex_store (AddFile ex_file_a2)
              (IFile ex_file_a2) Key.files ex_store_ok eq_refl eq_refl)
    as (s' & Ec & _ & Hview).
  - simpl. intros x [<-|[<-|[<-|[]]]]; reflexivity.
  - injection Ec as <-. apply Hview. now right.
Defined.

(** ** Removing an item from the view *)

Lemma filter_filter_comm {A : Type} (p q : A -> bool) l :
  filter p (filter q l) = filter q (filter p l).
Proof.
  induction l as [|x l IH]; simpl; [reflexivity|].
  destruct (p x) eqn:Hp, (q x) eqn:Hq; simpl; rewrite ?Hp, ?Hq, IH;
    reflexivity.
Qed.

Lemma key_desc_filter {A : Type} (key : A -> Z) (p : A -> bool) l :
  key_desc key l -> key_desc key (filter p l).
Proof.
  unfold key_desc. induction 1 as [|x l Hs IH Hall]; simpl; [constructor|].
  destruct (p x); [|assumption].
  constructor; [assumption|].
  rewrite Forall_forall in *. intros y Hy. apply filter_In in Hy.
  now apply Hall.
Qed.

(** Sorting what a filter keeps is filtering what was sorted. *)
Lemma Array_sort_filter {A : Type} (key : A -> Z) (p : A -> bool) l :
  filter p (Array_sort (cmp_desc key) l)
  = Array_sort (cmp_desc key) (filter p l).
Proof.
  apply Array_sort_unique.
  - apply key_desc_filter, Array_sort_desc.
  - intros t. unfold key_filter.
    rewrite filter_filter_comm.
    change (filter (fun x => (key x =? t)%Z) (Array_sort (cmp_desc key) l))
      with (key_filter key t (Array_sort (cmp_desc key) l)).
    rewrite Array_sort_at_key. unfold key_filter.
    apply filter_filter_comm.
Qed.

Section RemoveFromValues.
Import JSObject.
Context {V : Type}.
Variables (idf : V -> string) (f : V -> ContextItem) (X : ContextItemType).
Hypothesis f_type : forall v, item_type (f v) = X.
Hypothesis f_id : forall v, item_id (f v) = idf v.

Lemma values_delete_filter (o : JSObject.t V) id :
  keyed idf o ->
  map f (values (delete id o))
  = filter (fun i => negb (is_item X id i)) (map f (values o)).
Proof.
  unfold keyed, values. induction 1 as [|[k v] o Hkv Hall IH]; simpl;
    [reflexivity|].
  simpl in Hkv. unfold is_item at 1. rewrite f_type, f_id, Hkv.
  assert (Ty.eqb X X = true) as -> by (now destruct X).
  simpl. destruct (String.eqb k id); simpl; now rewrite IH.
Qed.

Lemma values_other_type (o : JSObject.t V) type id :
  Ty.eqb X type = false ->
  filter (fun i => negb (is_item type id i)) (map f (values o))
  = map f (values o).
Proof.
  intros Hne. induction (values o) as [|v l IH]; simpl; [reflexivity|].
  unfold is_item at 1. rewrite f_type, Hne. simpl. now rewrite IH.
Qed.

End RemoveFromValues.

Lemma collected_after_remove type id s :
  store_ok s ->
  collected (removeItem type id s)
  = filter (fun i => negb (is_item type id i)) (collected s).
Proof.
  intros H. store_parts. unfold collected. rewrite !filter_app.
  pose proof (fun t (E : Ty.eqb Ty.file t = false) =>
                values_other_type IFile Ty.file (fun _ => eq_refl)
                  (files s) t id E) as Ofile.
  pose proof (fun t (E : Ty.eqb Ty.folder t = false) =>
                values_other_type IFolder Ty.folder (fun _ => eq_refl)
                  (folders s) t id E) as Ofolder.
  pose proof (fun t (E : Ty.eqb Ty.youtube t = false) =>
                values_other_type IYouTube Ty.youtube (fun _ => eq_refl)
                  (youtubeVideos s) t id E) as Ovideo.
  pose proof (fun t (E : Ty.eqb Ty.tag t = false) =>
                values_other_type ITag Ty.tag (fun _ => eq_refl)
                  (tags s) t id E) as Otag.
  pose proof (fun t (E : Ty.eqb Ty.screenpipe t = false) =>
                values_other_type IScreenpipe Ty.screenpipe (fun _ => eq_refl)
                  (screenpipe s) t id E) as Oscreen.
  pose proof (fun t (E : Ty.eqb Ty.search t = false) =>
                values_other_type ISearch Ty.search (fun _ => eq_refl)
                  (searchResults s) t id E) as Osearch.
  destruct type; unfold removeItem; simpl.
  - rewrite (JSObjectOrder.spread_wf _ (proj1 Hfiles)),
      (values_delete_filter File.id IFile Ty.file (fun _ => eq_refl)
         (fun _ => eq_refl) _ id (proj2 Hfiles)).
    now rewrite Ofolder, Ovideo, Otag, Oscreen, Osearch.
  - rewrite (JSObjectOrder.spread_wf _ (proj1 Hfolders)),
      (values_delete_filter Folder.id IFolder Ty.folder (fun _ => eq_refl)
         (fun _ => eq_refl) _ id (proj2 Hfolders)).
    now rewrite Ofile, Ovideo, Otag, Oscreen, Osearch.
  - rewrite (JSObjectOrder.spread_wf _ (proj1 Hvideos)),
      (values_delete_filter YouTube.id IYouTube Ty.youtube (fun _ => eq_refl)
         (fun _ => eq_refl) _ id (proj2 Hvideos)).
    now rewrite Ofile, Ofolder, Otag, Oscreen, Osearch.
  - rewrite (JSObjectOrder.spread_wf _ (proj1 Htags)),
      (values_delete_filter Tag.id ITag Ty.tag (fun _ => eq_refl)
         (fun _ => eq_refl) _ id (proj2 Htags)).
    now rewrite Ofile, Ofolder, Ovideo, Oscreen, Osearch.
  - rewrite (JSObjectOrder.spread_wf _ (proj1 Hscreen)),
      (values_delete_filter Screenpipe.id IScreenpipe Ty.screenpipe
         (fun _ => eq_refl) (fun _ => eq_refl) _ id (proj2 Hscreen)).
    now rewrite Ofile, Ofolder, Ovideo, Otag, Osearch.
  - rewrite (JSObjectOrder.spread_wf _ (proj1 Hsearch)),
      (values_delete_filter Search.id ISearch Ty.search (fun _ => eq_refl)
         (fun _ => eq_refl) _ id (proj2 Hsearch)).
    now rewrite Ofile, Ofolder, Ovideo, Otag, Oscreen.
Qed.

(** X9. [removeItem (type, id)] takes the items of that type and id out of
    the sorted category items of the view and leaves every other item where
    it was relative to the others; the current file in front of them is not
    touched, also when it has that id. *)
Theorem X9_removeItem_filters_the_view
    (s : ContextItemsState) (type : ContextItemType) (id : string) :
  store_ok s ->
  Array_sort by_createdAt_desc (collected (removeItem type id s))
  = filter (fun i => negb (is_item type id i))
      (Array_sort by_createdAt_desc (collected s))
  /\ prepended (removeItem type id s) = prepended s
  /\ getUnifiedContext (removeItem type id s)
     = prepended s
       ++ filter (fun i => negb (is_item type id i))
            (Array_sort by_createdAt_desc (collected s)).
Proof.
  intros H.
  assert (Hsorted :
    Array_sort by_createdAt_desc (collected (removeItem type id s))
    = filter (fun i => negb (is_item type id i))
        (Array_sort by_createdAt_desc (collected s))).
  { rewrite (collected_after_remove type id s H). symmetry.
    apply (Array_sort_filter item_createdAt). }
  assert (Hpre : prepended (removeItem type id s) = prepended s).
  { unfold prepended. destruct (removeItem_slot type id s) as [-> ->].
    reflexivity. }
  split; [exact Hsorted|]. split; [exact Hpre|].
  now rewrite getUnifiedContext_parts, Hpre, Hsorted.
Qed.

Lemma X9_witness :
  getUnifiedContext (removeItem Ty.file "a.md" ex_store_same)
  = [IFile ex_file_a; ITag ex_tag_x; IFile ex_file_b].
Proof.
  destruct (X9_removeItem_filters_the_view ex_store_same Ty.file "a.md"
              ex_store_same_ok) as (_ & _ & ->).
  reflexivity.
Defined.

(** ** The view is determined by its order *)

(** X11. Without an included current file, the aggregate view is the only
    arrangement of the collected items that is in descending order of
    [createdAt] and keeps, for each [createdAt], the items stamped with it
    in the order they were collected. *)
Theorem X11_view_is_the_stable_descending_arrangement
    (s : ContextItemsState) (l : list ContextItem) :
  includeCurrentFile s = false \/ currentFile s = None ->
  (newer_first l /\ forall t, stamped t l = stamped t (collected s))
  <-> l = getUnifiedContext s.
Proof.
  intros Hoff. rewrite (getUnifiedContext_plain s Hoff). split.
  - intros [Hd Hst]. now apply (Array_sort_unique item_createdAt).
  - intros ->. split; [apply sorted_newer_first|].
    intros t. apply sorted_stamped.
Qed.

Lemma X11_witness : newer_first (getUnifiedContext ex_store).
Proof.
  apply (X11_view_is_the_stable_descending_arrangement ex_store
           (getUnifiedContext ex_store) (or_intror eq_refl)).
  reflexivity.
Defined.

(** ** The name of a folder *)

Local Open Scope string_scope.

Lemma split_from_nonempty sep cur s : split_from sep cur s <> [].
Proof.
  revert cur. induction s as [|c s IH]; intros cur; simpl; [discriminate|].
  destruct (Ascii.eqb c sep); [discriminate | apply IH].
Qed.

Lemma Array_pop_cons {A : Type} (x : A) l :
  l <> [] -> Array_pop (x :: l) = Array_pop l.
Proof. destruct l; [congruence | reflexivity]. Qed.

Lemma append_char_assoc cur c s : (cur ++ String c "") ++ s = cur ++ String c s.
Proof. induction cur as [|a cur IH]; simpl; [reflexivity | now rewrite IH]. Qed.

Lemma append_empty_r s : s ++ "" = s.
Proof. induction s as [|a s IH]; simpl; [reflexivity | now rewrite IH]. Qed.

(** A string without the separator is one segment. *)
Lemma split_from_no_sep sep cur s :
  has_char sep s = false -> split_from sep cur s = [cur ++ s].
Proof.
  revert cur. induction s as [|c s IH]; intros cur; simpl.
  - now rewrite append_empty_r.
  - destruct (Ascii.eqb c sep); simpl; [discriminate|].
    intros Hs. now rewrite IH, append_char_assoc.
Qed.

(** The last segment is the last segment of what follows a separator. *)
Lemma pop_split_after_sep sep s1 s2 : forall cur,
  Array_pop (split_from sep cur (s1 ++ String sep s2))
  = Array_pop (split_from sep "" s2).
Proof.
  induction s1 as [|c s1 IH]; intros cur; simpl.
  - rewrite Ascii.eqb_refl. apply Array_pop_cons, split_from_nonempty.
  - destruct (Ascii.eqb c sep); [|apply IH].
    rewrite Array_pop_cons by apply split_from_nonempty. apply IH.
Qed.

(** X10. The folder that [addFolderContext] files under a path is named after
    the last segment of the path: for a path without ["/"] the name is the
    path; for a path [prefix/seg] with a non-empty [seg] free of ["/"] the
    name is [seg]; for a path that ends in ["/"] the last segment is empty
    and the name is the whole path, slash included. *)
Theorem X10_folder_name_last_segment
    (prefix seg : string) (now : Z) (s : ContextItemsState) :
  has_char "/" seg = false ->
  folder_name seg = seg
  /\ folder_name (prefix ++ "/" ++ seg)
     = (if String.eqb seg "" then prefix ++ "/" else seg)
  /\ option_map Folder.name
       (JSObject.get (prefix ++ "/" ++ seg)
          (folders (addFolderContext (prefix ++ "/" ++ seg) now s)))
     = Some (if String.eqb seg "" then prefix ++ "/" else seg).
Proof.
  intros Hseg.
  assert (H1 : folder_name seg = seg).
  { unfold folder_name, String_split. rewrite (split_from_no_sep _ _ _ Hseg).
    simpl. now destruct seg. }
  assert (H2 : folder_name (prefix ++ "/" ++ seg)
               = (if String.eqb seg "" then prefix ++ "/" else seg)).
  { unfold folder_name, String_split.
    change (prefix ++ "/" ++ seg) with (prefix ++ String "/" seg).
    rewrite pop_split_after_sep, (split_from_no_sep _ _ _ Hseg). simpl.
    destruct seg; reflexivity. }
  split; [exact H1|]. split; [exact H2|].
  unfold addFolderContext, addFolder. simpl.
  rewrite JSObjectFacts.get_set_same. simpl. f_equal. exact H2.
Qed.

Lemma X10_witness :
  folder_name "notes/daily" = "daily" /\ folder_name "inbox/" = "inbox/".
Proof.
  split.
  - apply (X10_folder_name_last_segment "notes" "daily" 0 initial eq_refl).
  - apply (X10_folder_name_last_segment "inbox" "" 0 initial eq_refl).
Defined.

(* ================================================================== *)
(** * The tag route *)

Local Open Scope list_scope.

(** ** The sort, for any comparator *)

Section AnyComparator.
Context {A : Type}.
Variable cmp : A -> A -> Z.

Lemma sort_insert_perm_any x l : Permutation (x :: l) (sort_insert cmp x l).
Proof.
  induction l as [|y l IH]; simpl; [reflexivity|].
  destruct (cmp x y <=? 0)%Z; [reflexivity|].
  rewrite perm_swap. now constructor.
Qed.


(** The elements of a class whose members compare as equal keep their
    order. *)
Lemma Array_sort_stable_any (p : A -> bool) l :
  (forall x y, p x = true -> p y = true -> (cmp x y <= 0)%Z) ->
  filter p (Array_sort cmp l) = filter p l.
Proof.
  intros Hp. induction l as [|x l IH]; simpl; [reflexivity|].
  rewrite <- IH. clear IH.
  induction (Array_sort cmp l) as [|y l' IH]; simpl; [reflexivity|].
  destruct (Z.leb_spec (cmp x y) 0) as [Hle|Hgt]; [reflexivity|].
  simpl. rewrite IH.
  destruct (p x) eqn:Hx, (p y) eqn:Hy; try reflexivity.
  specialize (Hp x y Hx Hy). lia.
Qed.

(** An array in order is its own sorted array. *)
Lemma Array_sort_sorted_id l :
  StronglySorted (fun x y => (cmp x y <= 0)%Z) l -> Array_sort cmp l = l.
Proof.
  induction 1 as [|x l Hs IH Hall]; simpl; [reflexivity|].
  rewrite IH. destruct l as [|y l]; [reflexivity|]. simpl.
  apply Forall_inv in Hall. apply Z.leb_le in Hall. now rewrite Hall.
Qed.

Hypothesis cmp_trans :
  forall x y z, (cmp x y <= 0)%Z -> (cmp y z <= 0)%Z -> (cmp x z <= 0)%Z.
Hypothesis cmp_total : forall x y, (cmp x y <= 0)%Z \/ (cmp y x <= 0)%Z.

Lemma sort_insert_sorted_any x l :
  StronglySorted (fun x y => (cmp x y <= 0)%Z) l ->
  StronglySorted (fun x y => (cmp x y <= 0)%Z) (sort_insert cmp x l).
Proof.
  induction 1 as [|y l Hs IH Hall]; simpl.
  - repeat constructor.
  - destruct (Z.leb_spec (cmp x y) 0) as [Hle|Hgt].
    + constructor; [now constructor|].
      constructor; [assumption|].
      eapply Forall_impl; [|exact Hall]. simpl. intros z Hz.
      eapply cmp_trans; eauto.
    + constructor; [assumption|].
      rewrite Forall_forall in *. intros z Hz.
      apply (Permutation_in _ (Permutation_sym (sort_insert_perm_any x l)))
        in Hz.
      destruct Hz as [<-|Hz]; [|now apply Hall].
      destruct (cmp_total x y); [lia | assumption].
Qed.

Lemma Array_sort_sorted_any l :
  StronglySorted (fun x y => (cmp x y <= 0)%Z) (Array_sort cmp l).
Proof.
  induction l as [|x l IH]; simpl; [constructor|].
  now apply sort_insert_sorted_any.
Qed.

End AnyComparator.

(** A map that keeps the comparisons goes through the sort. *)
Lemma Array_sort_map {A : Type} (cmp : A -> A -> Z) (f : A -> A) l :
  (forall x y, cmp (f x) (f y) = cmp x y) ->
  (forall x y, cmp x (f y) = cmp x y) ->
  Array_sort cmp (map f l) = map f (Array_sort cmp l).
Proof.
  intros Hf Hr. induction l as [|x l IH]; simpl; [reflexivity|].
  rewrite IH. clear IH.
  induction (Array_sort cmp l) as [|y l' IH]; simpl; [reflexivity|].
  rewrite Hf. destruct (cmp x y <=? 0)%Z; simpl; [reflexivity|].
  now rewrite IH.
Qed.

(** ** The comparator of the scores *)

Lemma by_score_desc_le a b :
  (by_score_desc a b <= 0)%Z
  <-> Qcanon.Qcle (SuggestedTag.score b) (SuggestedTag.score a).
Proof.
  unfold by_score_desc. rewrite Qcanon.Qcle_alt.
  destruct (Qcanon.Qccompare _ _); split; intros H;
    try lia; try discriminate; try congruence.
Qed.

Lemma by_score_desc_trans x y z :
  (by_score_desc x y <= 0)%Z -> (by_score_desc y z <= 0)%Z ->
  (by_score_desc x z <= 0)%Z.
Proof.
  rewrite !by_score_desc_le. intros H1 H2. eapply Qcanon.Qcle_trans; eauto.
Qed.

Lemma by_score_desc_total x y :
  (by_score_desc x y <= 0)%Z \/ (by_score_desc y x <= 0)%Z.
Proof.
  rewrite !by_score_desc_le.
  destruct (Qcanon.Qclt_le_dec (SuggestedTag.score x) (SuggestedTag.score y))
    as [Hlt|Hle]; [right | left; exact Hle].
  now apply Qcanon.Qclt_le_weak.
Qed.

Lemma by_score_desc_same_score x y :
  SuggestedTag.score x = SuggestedTag.score y -> (by_score_desc x y <= 0)%Z.
Proof.
  intros E. apply by_score_desc_le. rewrite E. apply Qcanon.Qcle_refl.
Qed.

Lemma by_score_desc_with_hash x y :
  by_score_desc (with_hash x) (with_hash y) = by_score_desc x y.
Proof. reflexivity. Qed.

(** ** The returned tags *)

Lemma hash_tag_prefix name : String.prefix "#" (hash_tag name) = true.
Proof.
  unfold hash_tag. destruct (String.prefix "#" name) eqn:E; [exact E|].
  destruct name; reflexivity.
Qed.

Lemma hash_tag_idem name : hash_tag (hash_tag name) = hash_tag name.
Proof. unfold hash_tag at 1. now rewrite hash_tag_prefix. Qed.

Lemma with_hash_idem t : with_hash (with_hash t) = with_hash t.
Proof. unfold with_hash. simpl. now rewrite hash_tag_idem. Qed.



(** X13. The returned tags are in descending order of score, and the tags of
    one score keep the order the model suggested them in. *)
Theorem X13_returned_tags_sorted_by_score_stable
    (suggestedTags : list SuggestedTag.t) :
  StronglySorted
    (fun a b => Qcanon.Qcle (SuggestedTag.score b) (SuggestedTag.score a))
    (sortedTags suggestedTags)
  /\ (forall q,
        filter (fun t => Qcanon.Qc_eq_bool (SuggestedTag.score t) q)
          (sortedTags suggestedTags)
        = map with_hash
            (filter (fun t => Qcanon.Qc_eq_bool (SuggestedTag.score t) q)
               suggestedTags)).
Proof.
  unfold sortedTags. split.
  - pose proof (Array_sort_sorted_any by_score_desc by_score_desc_trans
                  by_score_desc_total suggestedTags) as Hs.
    induction Hs as [|x l Hs IH Hall]; simpl; constructor; [assumption|].
    rewrite Forall_forall in *. intros y Hy.
    apply in_map_iff in Hy as (y0 & <- & Hy0). simpl.
    apply by_score_desc_le. now apply Hall.
  - intros q.
    rewrite <- (Array_sort_stable_any by_score_desc
                  (fun t => Qcanon.Qc_eq_bool (SuggestedTag.score t) q)
                  suggestedTags).
    + induction (Array_sort by_score_desc suggestedTags) as [|x l IH];
        simpl; [reflexivity|].
      destruct (Qcanon.Qc_eq_bool (SuggestedTag.score x) q); simpl;
        now rewrite IH.
    + intros x y Hx Hy. apply by_score_desc_same_score.
      apply Qcanon.Qc_eq_bool_correct in Hx, Hy. congruence.
Qed.

(** X14. Formatting is idempotent: the returned tags, given to the same
    computation again, come back unchanged. *)
Theorem X14_sortedTags_idempotent (suggestedTags : list SuggestedTag.t) :
  sortedTags (sortedTags suggestedTags) = sortedTags suggestedTags.
Proof.
  unfold sortedTags.
  rewrite (Array_sort_map by_score_desc with_hash) by reflexivity.
  rewrite (Array_sort_sorted_id by_score_desc)
    by (apply Array_sort_sorted_any;
        [apply by_score_desc_trans | apply by_score_desc_total]).
  rewrite map_map. apply map_ext. intros t. apply with_hash_idem.
Qed.

Example sortedTags_ex :
  map (fun t => (SuggestedTag.tag t, SuggestedTag.isNew t))
    (sortedTags ex_suggested)
  = [("##todo", false); ("#project", false); ("#draft", true);
     ("#meeting", false)]%string.
Proof. vm_compute. reflexivity. Qed.

Lemma NextResponse_json_cases text st :
  let code := (st mod 65536)%Z in
  ((200 <= code <= 599)%Z -> null_body_status code = false ->
   NextResponse_json text st = Normal (mkErrorResponse text code))
  /\ ((code < 200)%Z \/ (599 < code)%Z ->
      NextResponse_json text st = Throw "RangeError")
  /\ ((200 <= code <= 599)%Z -> null_body_status code = true ->
      NextResponse_json text st = Throw "TypeError").
Proof.
  intros code. unfold NextResponse_json. fold code. clearbody code.
  destruct (Z.ltb_spec code 200), (Z.ltb_spec 599 code); simpl;
    repeat split; intros; try lia; try reflexivity;
    match goal with H : null_body_status code = _ |- _ => now rewrite H end.
Qed.

Lemma POST_catch_text error :
  exists text,
    POST_catch error = NextResponse_json text (statusCode_of error)
    /\ text <> ""%string
    /\ (forall m, message error = Some m -> m <> ""%string ->
                   String_includes "ollama" m = false ->
                   String_includes "OpenAI" m = false -> text = m).
Proof.
  destruct error as [msg st]. unfold POST_catch, message_includes, statusCode_of.
  simpl.
  destruct msg as [m|]; simpl.
  - destruct (String_includes "ollama" m) eqn:Eo.
    + eexists. split; [reflexivity|]. split; [discriminate|].
      intros m' [= <-] _ H. congruence.
    + destruct (String_includes "OpenAI" m) eqn:Ea.
      * eexists. split; [reflexivity|]. split; [discriminate|].
        intros m' [= <-] _ _ H. congruence.
      * destruct m as [|c m].
        -- eexists. split; [reflexivity|]. split; [discriminate|].
           intros m' [= <-] H. congruence.
        -- eexists. split; [reflexivity|]. split; [discriminate|].
           now intros m' [= <-].
  - eexists. split; [reflexivity|]. split; [discriminate|]. discriminate.
Qed.

(** X15. The [catch] block answers a caught error with the status
    [error.status], or 500 when the error has none or has 0, taken modulo
    65536. When that status is from 200 to 599 and is not one that admits no
    body (204, 205, 304), the handler returns a response with that status and
    a text that is not empty; a message that is not empty and names neither
    ["ollama"] nor ["OpenAI"] is that text. For every other status no
    response is made: [NextResponse.json] throws, a [RangeError] outside 200
    to 599 and a [TypeError] for 204, 205 and 304, and the handler throws
    with it. An error without status is always answered, with 500. *)
Theorem X15_error_response_text_and_status (error : JSError) :
  let code := (statusCode_of error mod 65536)%Z in
  ((200 <= code <= 599)%Z -> null_body_status code = false ->
   exists text,
     POST_catch error = Normal (mkErrorResponse text code)
     /\ text <> ""%string
     /\ (forall m, message error = Some m -> m <> ""%string ->
                    String_includes "ollama" m = false ->
                    String_includes "OpenAI" m = false -> text = m))
  /\ ((code < 200)%Z \/ (599 < code)%Z ->
      POST_catch error = Throw "RangeError")
  /\ ((200 <= code <= 599)%Z -> null_body_status code = true ->
      POST_catch error = Throw "TypeError")
  /\ (status error = None \/ status error = Some 0%Z ->
      exists text,
        POST_catch error = Normal (mkErrorResponse text 500)
        /\ text <> ""%string)
  /\ (forall response,
        POST_catch error = Normal response ->
        response_error response <> ""%string
        /\ (200 <= response_status response <= 599)%Z
        /\ null_body_status (response_status response) = false
        /\ response_status response = code).
Proof.
  intros code.
  destruct (POST_catch_text error) as (text & E & Htext & Hmsg).
  destruct (NextResponse_json_cases text (statusCode_of error))
    as (Hok & Hrange & Hnull). fold code in Hok, Hrange, Hnull.
  rewrite E. split; [|split; [exact Hrange | split; [exact Hnull | split]]].
  - intros Hc Hn. exists text. rewrite (Hok Hc Hn). auto.
  - intros Hst. exists text. split; [|exact Htext].
    assert (Hs : statusCode_of error = 500%Z).
    { unfold statusCode_of. now destruct Hst as [-> | ->]. }
    unfold NextResponse_json. now rewrite Hs.
  - intros response Hr. unfold NextResponse_json in Hr. fold code in Hr.
    destruct (Z.ltb_spec code 200); [discriminate|].
    destruct (Z.ltb_spec 599 code); [discriminate|]. simpl in Hr.
    destruct (null_body_status code) eqn:En; [discriminate|].
    injection Hr as <-. simpl. repeat split; try assumption; lia.
Qed.

Lemma X15_witness :
  POST_catch (mkError (Some "quota exceeded"%string) (Some 429%Z))
  = Normal (mkErrorResponse "quota exceeded" 429)
  /\ POST_catch (mkError (Some "not modified"%string) (Some 304%Z))
     = Throw "TypeError"
  /\ POST_catch (mkError (Some "odd"%string) (Some 600%Z))
     = Throw "RangeError".
Proof.
  split; [|split].
  - destruct (X15_error_response_text_and_status
                (mkError (Some "quota exceeded"%string) (Some 429%Z)))
      as (Hok & _).
    destruct Hok as (text & -> & _ & Hm);
      [vm_compute; split; discriminate | reflexivity|].
    now rewrite (Hm "quota exceeded"%string eq_refl ltac:(discriminate)
                   eq_refl eq_refl).
  - apply (X15_error_response_text_and_status
             (mkError (Some "not modified"%string) (Some 304%Z)));
      [vm_compute; split; discriminate | reflexivity].
  - apply (X15_error_response_text_and_status
             (mkError (Some "odd"%string) (Some 600%Z))).
    right. vm_compute. reflexivity.
Defined.

(* ================================================================== *)
(** * The top-up button *)

Ltac in_cases H :=
  simpl in H;
  repeat match goal with
         | H' : _ \/ _ |- _ => destruct H' as [H'|H']
         end;
  try discriminate; try contradiction.

Lemma licenseKey_of_not_null data k :
  licenseKey_of data = Some k ->
  exists url, Json_get "url" (Some data) = Some url.
Proof.
  unfold licenseKey_of. destruct data; simpl; try discriminate; eauto.
Qed.

Lemma handleTopUp_try_no_loading reply href cb :
  forallb (fun e => negb (is_SetLoading e)) (handleTopUp_try reply href cb)
  = true.
Proof.
  unfold handleTopUp_try. destruct reply as [|data]; [reflexivity|].
  destruct (Json_get "url" (Some data)) as [url|]; [|reflexivity].
  destruct (truthy url && negb href); [reflexivity|].
  rewrite forallb_app. apply andb_true_iff. split.
  - now destruct (truthy url).
  - destruct (licenseKey_of data); [|reflexivity]. now destruct cb.
Qed.

(** X16. Whatever the reply is, and whether or not something throws on the
    way, [handleTopUp] switches [loading] on first and off last, and touches
    it at no other moment: the button is never left disabled. *)
Theorem X16_loading_on_first_off_last (reply : Reply) (href cb : bool) :
  exists middle,
    handleTopUp reply href cb
    = SetLoading true :: middle ++ [SetLoading false]
    /\ forallb (fun e => negb (is_SetLoading e)) middle = true
    /\ last (handleTopUp reply href cb) ConsoleError = SetLoading false.
Proof.
  exists (handleTopUp_try reply href cb). split; [reflexivity|].
  split; [apply handleTopUp_try_no_loading|].
  unfold handleTopUp. rewrite app_comm_cons. apply last_last.
Qed.

(** X17. [onLicenseKeyChange] is called at most once, and exactly when the
    run gets to it: the reply is a body whose [url] is falsy or is taken by
    [window.location.href] without a throw, and in which [licenseKey.key] can
    be read down to its [key]; it is called with that value (which may be
    [undefined]). An error is logged at most once, and none is logged
    exactly when the callback was called and returned. *)
Theorem X17_license_callback_and_errors (reply : Reply) (href cb : bool) :
  (List.length (filter is_LicenseKeyChange (handleTopUp reply href cb))
   <= 1)%nat
  /\ (forall k,
        In (LicenseKeyChange k) (handleTopUp reply href cb)
        <-> reaches_callback reply href k)
  /\ (List.length (filter is_ConsoleError (handleTopUp reply href cb))
      <= 1)%nat
  /\ (~ In ConsoleError (handleTopUp reply href cb)
      <-> cb = true /\ exists k, reaches_callback reply href k).
Proof.
  unfold handleTopUp, handleTopUp_try.
  destruct reply as [|data].
  { simpl. split; [lia|]. split; [|split; [lia|split]].
    - intros k. split.
      + intros H. in_cases H.
      + intros (d & u & H & _). discriminate.
    - intros H. exfalso. apply H. auto.
    - intros (_ & k & d & u & H & _). discriminate. }
  destruct (Json_get "url" (Some data)) as [url|] eqn:Eu.
  2:{ simpl. split; [lia|]. split; [|split; [lia|split]].
      - intros k. split.
        + intros H. in_cases H.
        + intros (d & u & [= <-] & E & _). rewrite Eu in E. discriminate.
      - intros H. exfalso. apply H. auto.
      - intros (_ & k & d & u & [= <-] & E & _). rewrite Eu in E.
        discriminate. }
  destruct (truthy url) eqn:Et, href; simpl.
  2:{ split; [lia|]. split; [|split; [lia|split]].
      - intros k. split.
        + intros H. in_cases H.
        + intros (d & u & [= <-] & E & Himp & _). rewrite Eu in E.
          injection E as <-. specialize (Himp Et). discriminate.
      - intros H. exfalso. apply H. auto.
      - intros (_ & k & d & u & [= <-] & E & Himp & _). rewrite Eu in E.
        injection E as <-. specialize (Himp Et). discriminate. }
  all: destruct (licenseKey_of data) as [k0|] eqn:Ek; [destruct cb|]; simpl;
    (split; [lia|]); (split; [|split; [lia|split]]).
  all: try (intros k; split;
            [ intros H; in_cases H; try (injection H as <-);
              exists data, url; repeat split; auto; congruence
            | intros (d & u & [= <-] & E & _ & E'); rewrite Ek in E';
              first [ discriminate E' | injection E' as <-; auto 6 ] ]).
  all: try (intros H; split; [reflexivity|]; exists k0, data, url;
            repeat split; auto; congruence).
  all: try (intros (Hcb & _); discriminate Hcb).
  all: try (intros (_ & k & d & u & [= <-] & _ & _ & E'); rewrite Ek in E';
            discriminate E').
  all: try (intros _ H; in_cases H).
  all: try (intros H; exfalso; apply H; auto 6).
Qed.

Lemma X17_witness :
  In (LicenseKeyChange (Some (JsonString "lk_123")))
    (handleTopUp (Data ex_reply_checkout) true true)
  /\ ~ In ConsoleError (handleTopUp (Data ex_reply_checkout) true true)
  /\ ~ In (LicenseKeyChange (Some (JsonString "lk_123")))
        (handleTopUp (Data ex_reply_checkout) false true).
Proof.
  destruct (X17_license_callback_and_errors (Data ex_reply_checkout) true true)
    as (_ & Hcall & _ & Hquiet).
  assert (Hreach : reaches_callback (Data ex_reply_checkout) true
                     (Some (JsonString "lk_123"))).
  { exists ex_reply_checkout,
      (Some (JsonString "https://checkout.example/session")).
    repeat split; reflexivity. }
  split; [now apply Hcall|]. split.
  - apply Hquiet. split; [reflexivity|]. eauto.
  - destruct (X17_license_callback_and_errors (Data ex_reply_checkout)
                false true) as (_ & Hcall' & _).
    intros H. apply Hcall' in H as (d & u & [= <-] & E & Himp & _).
    injection E as <-. specialize (Himp eq_refl). discriminate.
Defined.

(** X18. The window is sent to [data.url] exactly when the reply is a body
    whose [url] is truthy and is taken by [window.location.href], whether or
    not the body has a license key; when the setter throws for the value,
    the run logs the error and does nothing else, the callback is not
    called. When both the navigation and the call of [onLicenseKeyChange]
    happen, the navigation comes first. *)
Theorem X18_navigation_whenever_url (reply : Reply) (href cb : bool) :
  (forall url,
     In (Navigate url) (handleTopUp reply href cb)
     <-> exists data, reply = Data data
                      /\ Json_get "url" (Some data) = Some url
                      /\ truthy url = true /\ href = true)
  /\ (forall data url,
        reply = Data data -> Json_get "url" (Some data) = Some url ->
        truthy url = true -> href = false ->
        handleTopUp reply href cb
        = [SetLoading true; ConsoleError; SetLoading false])
  /\ (forall url k,
        In (Navigate url) (handleTopUp reply href cb) ->
        In (LicenseKeyChange k) (handleTopUp reply href cb) ->
        appears_before (Navigate url) (LicenseKeyChange k)
          (handleTopUp reply href cb)).
Proof.
  unfold handleTopUp, handleTopUp_try. destruct reply as [|data].
  { split; [|split].
    - intros url. split.
      + intros H. in_cases H.
      + intros (d & H & _). discriminate.
    - intros d u H. discriminate.
    - intros url k H. in_cases H. }
  destruct (Json_get "url" (Some data)) as [u|] eqn:Eu.
  2:{ split; [|split].
      - intros url. split.
        + intros H. in_cases H.
        + intros (d & [= <-] & H & _). rewrite Eu in H. discriminate.
      - intros d u0 [= <-] H. rewrite Eu in H. discriminate.
      - intros url k H. in_cases H. }
  assert (Htail : forall url,
            ~ In (Navigate url)
                (match licenseKey_of data with
                 | Some licenseKey =>
                     LicenseKeyChange licenseKey
                     :: (if cb then [] else [ConsoleError])
                 | None => [ConsoleError]
                 end ++ [SetLoading false])).
  { intros url H. destruct (licenseKey_of data); [destruct cb|]; in_cases H. }
  destruct (truthy u) eqn:Et, href; simpl andb; cbv iota.
  - split; [|split].
    + intros url. split.
      * intros [H|H]; [discriminate|].
        cbn [app] in H. destruct H as [H|H].
        -- injection H as <-. exists data. auto.
        -- now apply Htail in H.
      * intros (d & [= <-] & E & _). rewrite Eu in E. injection E as <-.
        right. left. reflexivity.
    + intros d u0 _ _ _ H. discriminate.
    + intros url k [Hn|Hn] [Hk|Hk]; try discriminate.
      cbn [app] in Hn, Hk |- *.
      destruct Hn as [Hn|Hn]; [|now apply Htail in Hn].
      injection Hn as <-.
      destruct Hk as [Hk|Hk]; [discriminate|].
      apply in_split in Hk as (l1 & l2 & ->).
      now exists [SetLoading true], l1, l2.
  - split; [|split].
    + intros url. split.
      * intros H. in_cases H.
      * intros (d & _ & _ & _ & H). discriminate.
    + reflexivity.
    + intros url k H. in_cases H.
  - split; [|split].
    + intros url. split.
      * intros [H|H]; [discriminate|]. now apply Htail in H.
      * intros (d & [= <-] & E & Ht & _). rewrite Eu in E.
        injection E as <-. rewrite Et in Ht. discriminate.
    + intros d u0 [= <-] E Ht. rewrite Eu in E. injection E as <-.
      rewrite Et in Ht. discriminate.
    + intros url k [H|H]; [discriminate|]. now apply Htail in H.
  - split; [|split].
    + intros url. split.
      * intros [H|H]; [discriminate|]. now apply Htail in H.
      * intros (d & _ & _ & _ & H). discriminate.
    + intros d u0 [= <-] E Ht. rewrite Eu in E. injection E as <-.
      rewrite Et in Ht. discriminate.
    + intros url k [H|H]; [discriminate|]. now apply Htail in H.
Qed.

Lemma X18_witness :
  handleTopUp (Data ex_reply_url_only) true true
  = [SetLoading true;
     Navigate (Some (JsonString "https://checkout.example/session"));
     ConsoleError; SetLoading false]
  /\ handleTopUp (Data ex_reply_checkout) false true
     = [SetLoading true; ConsoleError; SetLoading false]
  /\ appears_before
       (Navigate (Some (JsonString "https://checkout.example/session")))
       (LicenseKeyChange (Some (JsonString "lk_123")))
       (handleTopUp (Data ex_reply_checkout) true true).
Proof.
  split; [reflexivity|]. split.
  - apply (X18_navigation_whenever_url (Data ex_reply_checkout) false true)
      with (data := ex_reply_checkout)
           (url := Some (JsonString "https://checkout.example/session"));
      reflexivity.
  - apply (X18_navigation_whenever_url (Data ex_reply_checkout) true true).
    + simpl. auto.
    + simpl. auto.
Defined.

(* ================================================================== *)
(** * The self-hosting actions *)

(** X19. Without a signed-in user ([userId] is [null] or empty) both actions
    throw ["User not authenticated"] at once: no license key is asked for,
    no call leaves the server, the table is not read or written. *)
Theorem X19_unauthenticated_runs_stop_at_once
    (env : Surroundings) (vercelToken openaiKey : string) (w : World) :
  not_string (session_userId env) = true ->
  setupProject env vercelToken openaiKey w
  = (Throws (Error "User not authenticated"), w)
  /\ getVercelDeployment env w = (Throws (Error "User not authenticated"), w).
Proof.
  unfold setupProject, getVercelDeployment.
  destruct (session_userId env) as [[|c u]|]; simpl; try discriminate;
    intros _; split; reflexivity.
Qed.

Lemma X19_witness :
  setupProject
    (mkSurroundings None (Returns "lk_123"%string) None None None "x"
       (Returns "prj_1"%string) (Returns "u"%string) 1 2)
    "vercel-token" "openai-key" ex_world
  = (Throws (Error "User not authenticated"), ex_world).
Proof.
  apply (X19_unauthenticated_runs_stop_at_once
           (mkSurroundings None (Returns "lk_123"%string) None None None "x"
              (Returns "prj_1"%string) (Returns "u"%string) 1 2)
           "vercel-token" "openai-key" ex_world eq_refl).
Defined.

(** X20. For a signed-in user [setupProject] asks for a license key before
    it looks at its two arguments: with an empty Vercel token or an empty
    OpenAI key the run still makes that one call, then throws the matching
    error (the Vercel token is checked first), and the table is as it was. *)
Theorem X20_license_key_before_validation
    (env : Surroundings) (vercelToken openaiKey userId key : string)
    (w : World) :
  session_userId env = Some userId -> userId <> ""%string ->
  license_service env = Returns key ->
  vercelToken = ""%string \/ openaiKey = ""%string ->
  setupProject env vercelToken openaiKey w
  = (Throws
       (Error (if String.eqb vercelToken ""
               then "Vercel token is required"
               else "OpenAI API key is required")),
     {| table := table w;
        calls_made := calls_made w ++ [CreateLicenseKey userId] |}).
Proof.
  intros Hs Hu Hl Hempty. unfold setupProject. rewrite Hs.
  destruct userId as [|c u]; [congruence|]. simpl.
  unfold bind, external. rewrite Hl.
  destruct vercelToken as [|c1 vt]; [reflexivity|].
  destruct Hempty as [Hv| ->]; [discriminate | reflexivity].
Qed.

Lemma X20_witness :
  setupProject (ex_env "alice") "" "openai-key" ex_world
  = (Throws (Error "Vercel token is required"),
     {| table := [ex_row_alice];
        calls_made := [CreateLicenseKey "alice"] |}).
Proof.
  apply (X20_license_key_before_validation (ex_env "alice") "" "openai-key"
           "alice" "lk_123" ex_world eq_refl).
  - discriminate.
  - reflexivity.
  - now left.
Defined.

Lemma map_update_userIds userId (set : Row.t -> Row.t) rows :
  (forall r, Row.userId (set r) = Row.userId r) ->
  map Row.userId (map (fun r => if of_user userId r then set r else r) rows)
  = map Row.userId rows.
Proof.
  intros Hset. rewrite map_map. apply map_ext. intros r.
  destruct (of_user userId r); [apply Hset | reflexivity].
Qed.

Lemma map_update_none userId (set : Row.t -> Row.t) rows :
  filter (of_user userId) rows = [] ->
  map (fun r => if of_user userId r then set r else r) rows = rows.
Proof.
  induction rows as [|r rows IH]; simpl; [reflexivity|].
  destruct (of_user userId r) eqn:E; [discriminate|].
  intros H. now rewrite IH.
Qed.

(** The user ids of the rows after a run of [setupProject]. *)
Lemma setupProject_userIds env vercelToken openaiKey w :
  map Row.userId (table (snd (setupProject env vercelToken openaiKey w)))
  = map Row.userId (table w).
Proof.
  unfold setupProject.
  destruct (session_userId env) as [[|c u]|]; simpl; try reflexivity.
  unfold bind, external.
  destruct (license_service env) as [key|e]; simpl; [|reflexivity].
  destruct vercelToken as [|c1 vt]; simpl; [reflexivity|].
  destruct openaiKey as [|c2 ok]; simpl; [reflexivity|].
  unfold db_select, db_update, statement, try_catch, array_truthy, throw, ret.
  simpl.
  destruct (select_rejected env); simpl; [reflexivity|].
  destruct (store_rejected env); simpl; [reflexivity|].
  destruct (create_project env) as [pid|e]; simpl;
    [|now apply map_update_userIds].
  destruct (create_deployment env) as [url|e]; simpl;
    [|now apply map_update_userIds].
  destruct (record_rejected env); simpl; [now apply map_update_userIds|].
  rewrite map_update_userIds by reflexivity. now apply map_update_userIds.
Qed.

(** X21. [setupProject] never adds a row: the result of the [select] is an
    array, which is truthy also when it is empty, so the [update] branch is
    always the one taken. The rows after a run are rows of the same users in
    the same order; for a user who has no row the table is left as it was,
    and [getVercelDeployment] still returns [null] after the run, also after
    one that returned [success: true]. *)
Theorem X21_setupProject_never_inserts
    (env : Surroundings) (vercelToken openaiKey userId : string) (w : World) :
  map Row.userId (table (snd (setupProject env vercelToken openaiKey w)))
  = map Row.userId (table w)
  /\ (session_userId env = Some userId ->
      filter (of_user userId) (table w) = [] ->
      table (snd (setupProject env vercelToken openaiKey w)) = table w
      /\ (userId <> ""%string -> select_rejected env = None ->
          fst (getVercelDeployment env
                 (snd (setupProject env vercelToken openaiKey w)))
          = Returns None)).
Proof.
  split; [apply setupProject_userIds|].
  intros Hs Hnone.
  assert (Ht : table (snd (setupProject env vercelToken openaiKey w))
               = table w).
  { unfold setupProject. rewrite Hs.
    destruct userId as [|c u]; simpl; [reflexivity|].
    unfold bind, external.
    destruct (license_service env) as [key|e]; simpl; [|reflexivity].
    destruct vercelToken as [|c1 vt]; simpl; [reflexivity|].
    destruct openaiKey as [|c2 ok]; simpl; [reflexivity|].
    unfold db_select, db_update, statement, try_catch, array_truthy, throw,
      ret. simpl.
    destruct (select_rejected env); simpl; [reflexivity|].
    destruct (store_rejected env); simpl; [reflexivity|].
    destruct (create_project env) as [pid|e]; simpl;
      [|now apply map_update_none].
    destruct (create_deployment env) as [url|e]; simpl;
      [|now apply map_update_none].
    destruct (record_rejected env); simpl; [now apply map_update_none|].
    rewrite (map_update_none (String c u) _ (table w) Hnone).
    now apply map_update_none. }
  split; [exact Ht|].
  intros Hu Hsel. unfold getVercelDeployment. rewrite Hs.
  destruct userId as [|c u]; [congruence|]. simpl.
  unfold bind, db_select_limit_1, statement, ret. rewrite Hsel. simpl.
  now rewrite Ht, Hnone.
Qed.

Lemma X21_witness :
  fst (setupProject (ex_env "bob") "vercel-token" "openai-key" ex_world)
  = Returns
      (SetupResult.mk true "file-organizer-k3j9x0q2.vercel.app" "prj_1"
         "lk_123")
  /\ fst (getVercelDeployment (ex_env "bob")
            (snd (setupProject (ex_env "bob") "vercel-token" "openai-key"
                    ex_world)))
     = Returns None.
Proof.
  split; [reflexivity|].
  destruct (X21_setupProject_never_inserts (ex_env "bob") "vercel-token"
              "openai-key" "bob" ex_world) as (_ & H).
  destruct (H eq_refl eq_refl) as (_ & Hget).
  apply Hget; [discriminate | reflexivity].
Defined.

Lemma filter_map_update userId (set : Row.t -> Row.t) rows :
  (forall r, Row.userId (set r) = Row.userId r) ->
  filter (of_user userId)
    (map (fun r => if of_user userId r then set r else r) rows)
  = map set (filter (of_user userId) rows).
Proof.
  intros Hset. induction rows as [|r rows IH]; simpl; [reflexivity|].
  destruct (of_user userId r) eqn:E; simpl.
  - unfold of_user in *. rewrite Hset, E. simpl. now rewrite IH.
  - rewrite E. exact IH.
Qed.

Lemma filter_others_update userId (set : Row.t -> Row.t) rows :
  (forall r, Row.userId (set r) = Row.userId r) ->
  filter (fun r => negb (of_user userId r))
    (map (fun r => if of_user userId r then set r else r) rows)
  = filter (fun r => negb (of_user userId r)) rows.
Proof.
  intros Hset. induction rows as [|r rows IH]; simpl; [reflexivity|].
  destruct (of_user userId r) eqn:E; simpl.
  - unfold of_user in *. rewrite Hset, E. simpl. exact IH.
  - rewrite E. simpl. now rewrite IH.
Qed.

(** The table after a run: the rows of the signed-in user rewritten by one
    function that keeps their user id, the other rows as they were. *)
Lemma setupProject_table env vercelToken openaiKey userId w :
  session_userId env = Some userId ->
  exists set : Row.t -> Row.t,
    (forall r, Row.userId (set r) = Row.userId r)
    /\ table (snd (setupProject env vercelToken openaiKey w))
       = map (fun r => if of_user userId r then set r else r) (table w).
Proof.
  intros Hs.
  assert (Hid : forall rows : list Row.t,
            rows = map (fun r => if of_user userId r then r else r) rows).
  { intros rows. induction rows as [|r rows IH]; simpl; [reflexivity|].
    rewrite <- IH. now destruct (of_user userId r). }
  assert (Hcomp : forall (f g : Row.t -> Row.t) rows,
            (forall r, Row.userId (f r) = Row.userId r) ->
            map (fun r => if of_user userId r then g r else r)
              (map (fun r => if of_user userId r then f r else r) rows)
            = map (fun r => if of_user userId r then g (f r) else r) rows).
  { intros f g rows Hf. rewrite map_map. apply map_ext. intros r.
    destruct (of_user userId r) eqn:E; [|now rewrite E].
    unfold of_user in *. now rewrite Hf, E. }
  unfold setupProject. rewrite Hs.
  destruct userId as [|c u]; simpl;
    [exists (fun r => r); split; [reflexivity | apply Hid]|].
  unfold bind, external.
  destruct (license_service env) as [key|e]; simpl;
    [|exists (fun r => r); split; [reflexivity | apply Hid]].
  destruct vercelToken as [|c1 vt]; simpl;
    [exists (fun r => r); split; [reflexivity | apply Hid]|].
  destruct openaiKey as [|c2 ok]; simpl;
    [exists (fun r => r); split; [reflexivity | apply Hid]|].
  unfold db_select, db_update, statement, try_catch, array_truthy, throw, ret.
  simpl.
  destruct (select_rejected env); simpl;
    [exists (fun r => r); split; [reflexivity | apply Hid]|].
  destruct (store_rejected env); simpl;
    [exists (fun r => r); split; [reflexivity | apply Hid]|].
  destruct (create_project env) as [pid|e]; simpl;
    [|eexists; split; [|reflexivity]; reflexivity].
  destruct (create_deployment env) as [url|e]; simpl;
    [|eexists; split; [|reflexivity]; reflexivity].
  destruct (record_rejected env); simpl;
    [eexists; split; [|reflexivity]; reflexivity|].
  rewrite Hcomp by reflexivity.
  eexists; split; [|reflexivity]; reflexivity.
Qed.

(** X22. Round trip for a user who has a row: when [setupProject] returns,
    [getVercelDeployment] returns the project id and the deployment URL of
    that result; every row of the user holds the Vercel token given and these
    two values; the license key of the result is the one the license service
    gave; and the calls made are, in this order, the license key, the
    project (with that key and the OpenAI key) and the deployment. *)
Theorem X22_setup_then_deployment_lookup
    (env : Surroundings) (vercelToken openaiKey userId : string)
    (w w' : World) (res : SetupResult.t) :
  session_userId env = Some userId ->
  filter (of_user userId) (table w) <> [] ->
  setupProject env vercelToken openaiKey w = (Returns res, w') ->
  getVercelDeployment env w'
  = (Returns
       (Some {| Deployment.deploymentUrl :=
                  Some (SetupResult.deploymentUrl res);
                Deployment.projectId := Some (SetupResult.projectId res) |}),
     w')
  /\ (forall r, In r (table w') -> of_user userId r = true ->
                Row.token r = vercelToken
                /\ Row.projectId r = Some (SetupResult.projectId res)
                /\ Row.deploymentUrl r = Some (SetupResult.deploymentUrl res))
  /\ SetupResult.success res = true
  /\ license_service env = Returns (SetupResult.licenseKey res)
  /\ calls_made w'
     = calls_made w
       ++ [CreateLicenseKey userId;
           CreateProject ("file-organizer-" ++ random_suffix env)
             (SetupResult.licenseKey res) openaiKey;
           CreateDeployment ("file-organizer-" ++ random_suffix env)].
Proof.
  intros Hs Hrows. unfold setupProject. rewrite Hs.
  destruct userId as [|c u]; simpl; [discriminate|].
  unfold bind, external.
  destruct (license_service env) as [key|e] eqn:Hl; simpl; [|discriminate].
  destruct vercelToken as [|c1 vt]; simpl; [discriminate|].
  destruct openaiKey as [|c2 ok]; simpl; [discriminate|].
  unfold db_select, db_update, statement, try_catch, array_truthy, throw, ret.
  simpl.
  destruct (select_rejected env) eqn:Hsel; simpl; [discriminate|].
  destruct (store_rejected env); simpl; [discriminate|].
  destruct (create_project env) as [pid|e]; simpl; [|discriminate].
  destruct (create_deployment env) as [url|e]; simpl; [|discriminate].
  destruct (record_rejected env); simpl; [discriminate|].
  intros [= <- <-]. simpl.
  split; [|split; [|split; [reflexivity|split; [reflexivity|]]]].
  - unfold getVercelDeployment. rewrite Hs. simpl.
    unfold bind, db_select_limit_1, statement, ret. rewrite Hsel. simpl.
    rewrite !filter_map_update by reflexivity.
    destruct (filter (of_user (String c u)) (table w)) as [|r0 rest];
      [congruence|]. reflexivity.
  - intros r Hin Hr.
    apply in_map_iff in Hin as (r1 & <- & Hin1).
    apply in_map_iff in Hin1 as (r0 & <- & _).
    destruct (of_user (String c u) r0) eqn:E0; simpl.
    + unfold of_user in *. simpl. rewrite E0. simpl. auto.
    + rewrite E0 in Hr |- *. congruence.
  - now rewrite <- !app_assoc.
Qed.

Lemma X22_witness :
  getVercelDeployment (ex_env "alice")
    (snd (setupProject (ex_env "alice") "vercel-token" "openai-key" ex_world))
  = (Returns
       (Some (Deployment.mk (Some "file-organizer-k3j9x0q2.vercel.app"%string)
                (Some "prj_1"%string))),
     snd (setupProject (ex_env "alice") "vercel-token" "openai-key" ex_world)).
Proof.
  destruct (X22_setup_then_deployment_lookup (ex_env "alice") "vercel-token"
              "openai-key" "alice" ex_world
              (snd (setupProject (ex_env "alice") "vercel-token" "openai-key"
                      ex_world))
              (SetupResult.mk true "file-organizer-k3j9x0q2.vercel.app"
                 "prj_1" "lk_123") eq_refl) as (Hget & _).
  - discriminate.
  - reflexivity.
  - exact Hget.
Defined.

(** X23. A run of [setupProject] leaves the rows of the other users as they
    were, whatever happens in it. *)
Theorem X23_other_users_rows_untouched
    (env : Surroundings) (vercelToken openaiKey userId : string) (w : World) :
  session_userId env = Some userId ->
  filter (fun r => negb (of_user userId r))
    (table (snd (setupProject env vercelToken openaiKey w)))
  = filter (fun r => negb (of_user userId r)) (table w).
Proof.
  intros Hs.
  destruct (setupProject_table env vercelToken openaiKey userId w Hs)
    as (set & Hset & ->).
  now apply filter_others_update.
Qed.

Lemma X23_witness :
  filter (fun r => negb (of_user "bob" r))
    (table (snd (setupProject (ex_env "bob") "vercel-token" "openai-key"
                   ex_world)))
  = [ex_row_alice].
Proof.
  rewrite (X23_other_users_rows_untouched (ex_env "bob") "vercel-token"
             "openai-key" "bob" ex_world eq_refl).
  reflexivity.
Defined.

(** X24. Nothing is undone when Vercel fails. If creating the project
    throws, [setupProject] throws the same error, the Vercel token is already
    stored in the rows of the user, and no deployment is asked for; if
    creating the deployment throws, the same holds and the project has been
    created, but its id is on no row. *)
Theorem X24_vercel_failure_after_token_stored
    (env : Surroundings) (vercelToken openaiKey userId key : string)
    (w : World) :
  session_userId env = Some userId -> userId <> ""%string ->
  license_service env = Returns key ->
  vercelToken <> ""%string -> openaiKey <> ""%string ->
  select_rejected env = None -> store_rejected env = None ->
  let stored :=
    map (fun r =>
           if of_user userId r
           then Row.mk (Row.userId r) vercelToken (Row.projectId r)
                  (Row.deploymentUrl r) (Some (date_store env))
           else r) (table w) in
  let name := ("file-organizer-" ++ random_suffix env)%string in
  (forall error,
     create_project env = Throws error ->
     setupProject env vercelToken openaiKey w
     = (Throws error,
        {| table := stored;
           calls_made :=
             calls_made w
             ++ [CreateLicenseKey userId;
                 CreateProject name key openaiKey] |}))
  /\ (forall projectId error,
        create_project env = Returns projectId ->
        create_deployment env = Throws error ->
        setupProject env vercelToken openaiKey w
        = (Throws error,
           {| table := stored;
              calls_made :=
                calls_made w
                ++ [CreateLicenseKey userId;
                    CreateProject name key openaiKey;
                    CreateDeployment name] |})).
Proof.
  intros Hs Hu Hl Hv Ho Hsel Hst stored name. subst stored name.
  unfold setupProject. rewrite Hs.
  destruct userId as [|c u]; [congruence|]. simpl.
  unfold bind, external. rewrite Hl.
  destruct vercelToken as [|c1 vt]; [congruence|].
  destruct openaiKey as [|c2 ok]; [congruence|]. simpl.
  unfold db_select, db_update, statement, try_catch, array_truthy, throw, ret.
  rewrite Hsel, Hst. simpl. split.
  - intros error ->. simpl. now rewrite <- !app_assoc.
  - intros projectId error -> ->. simpl. now rewrite <- !app_assoc.
Qed.

Lemma X24_witness :
  setupProject
    (mkSurroundings (Some "alice"%string) (Returns "lk_123"%string) None None
       None "k3j9x0q2" (Throws (mkError (Some "forbidden"%string) (Some 403%Z)))
       (Returns "u"%string) 1700000000000 1700000005000)
    "vercel-token" "openai-key" ex_world
  = (Throws (mkError (Some "forbidden"%string) (Some 403%Z)),
     {| table :=
          [Row.mk "alice" "vercel-token" None None (Some 1700000000000%Z)];
        calls_made :=
          [CreateLicenseKey "alice";
           CreateProject "file-organizer-k3j9x0q2" "lk_123" "openai-key"] |}).
Proof.
  destruct (X24_vercel_failure_after_token_stored
              (mkSurroundings (Some "alice"%string) (Returns "lk_123"%string)
                 None None None "k3j9x0q2"
                 (Throws (mkError (Some "forbidden"%string) (Some 403%Z)))
                 (Returns "u"%string) 1700000000000 1700000005000)
              "vercel-token" "openai-key" "alice" "lk_123" ex_world eq_refl
              ltac:(discriminate) eq_refl ltac:(discriminate)
              ltac:(discriminate) eq_refl eq_refl)
    as (Hproject & _).
  apply Hproject. reflexivity.
Defined.
